(** * ExtractorFileTool: a shallow embedding of [main.py]

    The development follows the source file top-down: Python's [str]
    operations used by the program, the two CSV helper classes
    [SimpleDictReader] and [SimpleDictWriter], the [DataExtractor] class and
    the orchestrating function [process_extraction_info].

    - a Python [str] is the list of its code points ([N]);
    - a [dict] with string keys is a [gmap]: the program only looks keys up
      and tests dicts for emptiness (the one place that reads a dict in
      order, the values of ["main"], is taken as a pair);
    - a raised exception is the [Raise] branch of [result]; state that an
      exception leaves behind (files, the extractor) is returned next to it;
    - the file system is a finite map from paths to the decoded text of the
      files; opening a path that is not in the map for reading raises
      [FileNotFoundError], and ["\n"] is written as it is (POSIX). *)

From Stdlib Require Import String Ascii NArith.
From stdpp Require Import gmap list.

Local Open Scope N_scope.
Local Open Scope list_scope.

(** ** Python strings *)

Abbreviation str := (list N).

(** ASCII literals. *)
Definition lit (x : string) : str := N_of_ascii <$> list_ascii_of_string x.

Definition NL : N := 10.
Definition CR : N := 13.
Definition DQ : N := 34.      (* the straight double quote *)
Definition COMMA : N := 44.

(** ** Exceptions *)

Inductive exn : Type :=
| KeyError (key : str)
| TypeError
| ValueError
| FileNotFoundError (path : str).

Inductive result (A : Type) : Type :=
| Ok (a : A)
| Raise (e : exn).
Arguments Ok {A} a.
Arguments Raise {A} e.

#[global] Instance result_ret : MRet result := fun A a => Ok a.
#[global] Instance result_bind : MBind result := fun A B f m =>
  match m with
  | Ok a => f a
  | Raise e => Raise e
  end.

(** [for x in xs: body] where the body may raise. *)
Fixpoint for_each {A St : Type} (body : St -> A -> result St) (xs : list A)
    (s : St) : result St :=
  match xs with
  | [] => Ok s
  | x :: xs' => s' ← body s x; for_each body xs' s'
  end.

(** [[f(x) for x in xs]] where [f] may raise. *)
Fixpoint comprehension {A B : Type} (f : A -> result B) (xs : list A)
  : result (list B) :=
  match xs with
  | [] => Ok []
  | x :: xs' => y ← f x; ys ← comprehension f xs'; Ok (y :: ys)
  end.

(** ** [str] methods *)

(** Code points for which [str.isspace] holds. *)
Definition isspace (c : N) : bool :=
  ((9 <=? c) && (c <=? 13)) || ((28 <=? c) && (c <=? 32))
  || (c =? 133) || (c =? 160) || (c =? 5760)
  || ((8192 <=? c) && (c <=? 8202))
  || (c =? 8232) || (c =? 8233) || (c =? 8239) || (c =? 8287) || (c =? 12288).

Fixpoint lstrip_by (p : N -> bool) (x : str) : str :=
  match x with
  | [] => []
  | c :: x' => if p c then lstrip_by p x' else x
  end.

Definition rstrip_by (p : N -> bool) (x : str) : str :=
  reverse (lstrip_by p (reverse x)).

(** [x.rstrip('\n')] *)
Definition rstrip_nl (x : str) : str := rstrip_by (N.eqb NL) x.

(** [x.strip()] *)
Definition strip (x : str) : str := rstrip_by isspace (lstrip_by isspace x).

Fixpoint startswith (x p : str) : bool :=
  match p, x with
  | [], _ => true
  | a :: p', b :: x' => (a =? b) && startswith x' p'
  | _ :: _, [] => false
  end.

(** Left-to-right scan for non-overlapping occurrences of [sep]; [skip]
    counts the characters of a separator that are still to be passed. The
    head of the result is the field being read. *)
Fixpoint split_go (sep : str) (skip : nat) (x : str) : list str :=
  match x with
  | [] => [[]]
  | c :: x' =>
      match skip with
      | S k => split_go sep k x'
      | O =>
          if startswith x sep then [] :: split_go sep (length sep - 1) x'
          else match split_go sep O x' with
               | f :: fs => (c :: f) :: fs
               | [] => [[c]]
               end
      end
  end.

(** [x.split(sep)]: an empty separator is a [ValueError]. *)
Definition split (sep x : str) : result (list str) :=
  match sep with
  | [] => Raise ValueError
  | _ :: _ => Ok (split_go sep O x)
  end.

(** [sep.join(xs)] *)
Fixpoint join (sep : str) (xs : list str) : str :=
  match xs with
  | [] => []
  | [x] => x
  | x :: xs' => x ++ sep ++ join sep xs'
  end.

(** ['c' in x] for a single character. *)
Definition contains (c : N) (x : str) : bool := existsb (N.eqb c) x.

(** [x in xs] for a list of strings. *)
Definition list_contains (x : str) (xs : list str) : bool :=
  bool_decide (x ∈ xs).

(** ** Dictionaries *)

(** [dict(pairs)]: a later pair overrides an earlier one with the same key. *)
Definition dict {V : Type} (pairs : list (str * V)) : gmap str V :=
  foldl (fun m kv => <[kv.1 := kv.2]> m) ∅ pairs.

(** [d[key]] *)
Definition getitem {V : Type} (d : gmap str V) (key : str) : result V :=
  match d !! key with
  | Some v => Ok v
  | None => Raise (KeyError key)
  end.

(** ** Text files *)

(** The lines a text file yields, line terminators kept. Python
    recognises ["\n"], ["\r"] and ["\r\n"]; opened with [newline=None] (the
    default) each is translated to ["\n"], opened with [newline=''] none is. *)
Fixpoint lines_of (translate : bool) (x : str) : list str :=
  match x with
  | [] => []
  | c :: x' =>
      if c =? NL then [NL] :: lines_of translate x'
      else if c =? CR then
        match x' with
        | c' :: x'' =>
            if c' =? NL
            then (if translate then [NL] else [CR; NL]) :: lines_of translate x''
            else (if translate then [NL] else [CR]) :: lines_of translate x'
        | [] => [if translate then [NL] else [CR]]
        end
      else match lines_of translate x' with
           | l :: ls => (c :: l) :: ls
           | [] => [[c]]
           end
  end.

(** [file.readline()] on a fresh file, and the lines left for iteration. *)
Definition readline (ls : list str) : str * list str :=
  match ls with
  | [] => ([], [])
  | l :: ls' => (l, ls')
  end.


(** ** class SimpleDictReader *)

Module SimpleDictReader.

Record t : Type := mk {
  fieldnames : list str;
  delimiter : str;
  quotechar : str
}.

(** [SimpleDictReader(file, fieldnames)] with the default delimiter and
    quote character. *)
Definition new (fieldnames : list str) : t := mk fieldnames [COMMA] [DQ].

Definition _parse_row (self : t) (row : str) : result (gmap str str) :=
  let row := rstrip_nl row in
  values ← split (delimiter self) row;
  Ok (dict (zip (fieldnames self) values)).

End SimpleDictReader.

(** ** class SimpleDictWriter *)

Module SimpleDictWriter.

Record t : Type := mk {
  fieldnames : list str;
  delimiter : str;
  quotechar : str
}.

Definition new (fieldnames : list str) : t := mk fieldnames [COMMA] [DQ].

(** The test is on the literal double quote, the wrapping uses
    [self.quotechar]. *)
Definition _format_row (self : t) (row : gmap str str) : result str :=
  formatted_values ←
    comprehension
      (fun field =>
         v ← getitem row field;
         Ok (if negb (contains DQ v)
             then quotechar self ++ v ++ quotechar self
             else v))
      (fieldnames self);
  Ok (join (delimiter self) formatted_values).

(** [file] is what has been written to the output file so far. *)
Definition writerow (self : t) (file : str) (row : gmap str str) : result str :=
  formatted_row ← _format_row self row;
  Ok (file ++ formatted_row ++ [NL]).

End SimpleDictWriter.

(** ** class DataExtractor *)

(** [codes] is [None] after the orchestrator has looked up a key column that
    the previous harvest does not have. *)
Record DataExtractor : Type := mkDataExtractor {
  sample_file : str;
  codes : option (list str);
  relevant_keys : gmap str (list str)
}.

Definition set_codes (c : option (list str)) (self : DataExtractor) : DataExtractor :=
  mkDataExtractor (sample_file self) c (relevant_keys self).

Definition set_relevant_keys (rk : gmap str (list str)) (self : DataExtractor)
  : DataExtractor :=
  mkDataExtractor (sample_file self) (codes self) rk.

(** Paths to contents. *)
Abbreviation filesystem := (gmap str str).

(** [line.translate(str.maketrans(mapping))] *)

(** [str.maketrans(mapping)]: every key must be one character long. *)
Definition maketrans (mapping : list (str * str)) : result (gmap N str) :=
  for_each
    (fun table kv =>
       match kv.1 with
       | [c] => Ok (<[c := kv.2]> table)
       | _ => Raise ValueError
       end)
    mapping ∅.

Definition translate (table : gmap N str) (line : str) : str :=
  flat_map (fun c => default [c] (table !! c)) line.

(** The dict literal of [preprocess_data]. The second key is written in the
    source as the two characters U+00E2 U+20AC. *)
Definition quote_mapping : list (str * str) :=
  [ ([39], [DQ]);
    ([226; 8364], [DQ]);
    ([8220], [DQ]);
    ([8222], [DQ]);
    ([8221], [DQ]);
    ([34], [DQ]) ].

(** *** preprocess_data *)

(** The body of the loop over [files]: [open(file, 'r+')], [readlines],
    the comprehension (which calls [maketrans] once per line), then
    seek, truncate and [writelines]. The file is only rewritten once every
    line has been translated. *)
Definition preprocess_file (fs : filesystem) (file : str) : result filesystem :=
  match fs !! file with
  | None => Raise (FileNotFoundError file)
  | Some content =>
      let lines := lines_of true content in
      modified_lines ←
        comprehension
          (fun line => table ← maketrans quote_mapping; Ok (translate table line))
          lines;
      Ok (<[file := concat modified_lines]> fs)
  end.

Fixpoint preprocess_data (files : list str) (fs : filesystem)
  : filesystem * result unit :=
  match files with
  | [] => (fs, Ok tt)
  | file :: files' =>
      match preprocess_file fs file with
      | Ok fs' => preprocess_data files' fs'
      | Raise e => (fs, Raise e)
      end
  end.

(** *** read_codes *)

(** The parameter [file] is rebound to the default when it is [None], and the
    [with] statement then opens [self.sample_file] and rebinds [file] again. *)
Definition read_codes (self_sample_file : str) (key_column : str)
    (file : option str) (fs : filesystem) : result (list str) :=
  let file := match file with None => self_sample_file | Some f => f end in
  match fs !! self_sample_file with
  | None => Raise (FileNotFoundError self_sample_file)
  | Some content =>
      let file := lines_of true content in
      let '(first, file) := readline file in
      header ← split [COMMA] (strip first);
      let reader := SimpleDictReader.new header in
      comprehension
        (fun line =>
           row ← SimpleDictReader._parse_row reader line;
           getitem row key_column)
        file
  end.

(** *** __init__ *)

Definition __init__ (sample_file key_column : str) (preprocess_files : bool)
    (files : option (list str)) (fs : filesystem)
  : filesystem * result DataExtractor :=
  let '(fs, r) :=
    match preprocess_files, files with
    | true, Some files => preprocess_data files fs
    | _, _ => (fs, Ok tt)
    end in
  match r with
  | Raise e => (fs, Raise e)
  | Ok _ =>
      match read_codes sample_file key_column None fs with
      | Raise e => (fs, Raise e)
      | Ok codes => (fs, Ok (mkDataExtractor sample_file (Some codes) ∅))
      end
  end.

(** *** extract_data *)

(** [if record_relevant_keys:] *)
Definition list_truthy (l : option (list str)) : bool :=
  match l with
  | Some (_ :: _) => true
  | _ => false
  end.

(** [if d:] for a dict. *)
Definition dict_truthy {V : Type} (d : gmap str V) : bool :=
  negb (bool_decide (dom d = (∅ : gset str))).

(** [for key in record_relevant_keys: if key in row.keys(): ...append(...)] *)
Definition record_keys (record_relevant_keys : list str) (row : gmap str str)
    (rk : gmap str (list str)) : result (gmap str (list str)) :=
  for_each
    (fun rk key =>
       match row !! key with
       | Some v => l ← getitem rk key; Ok (<[key := l ++ [v]]> rk)
       | None => Ok rk
       end)
    record_relevant_keys rk.

(** What the loop over the reader changes: the output written so far and
    [self.relevant_keys]. *)
Record loop_state : Type := mkLoop {
  outfile : str;
  harvest : gmap str (list str)
}.

(** The body of [for row in reader:] for one line of the input:
    [__next__] takes the next line of the file and parses it with
    [_parse_row]; the end of the file ends the loop. *)
Definition row_step (reader : SimpleDictReader.t) (writer : SimpleDictWriter.t)
    (self_codes : option (list str)) (key_column : str)
    (record_relevant_keys : option (list str))
    (st : loop_state) (line : str) : loop_state * result unit :=
  match SimpleDictReader._parse_row reader line with
  | Raise e => (st, Raise e)
  | Ok row =>
      match getitem row key_column with
      | Raise e => (st, Raise e)
      | Ok code =>
          match self_codes with
          | None => (st, Raise TypeError)
          | Some cs =>
              if list_contains code cs then
                match (if list_truthy record_relevant_keys
                       then record_keys (default [] record_relevant_keys) row (harvest st)
                       else Ok (harvest st)) with
                | Raise e => (st, Raise e)
                | Ok rk =>
                    match SimpleDictWriter.writerow writer (outfile st) row with
                    | Raise e => (mkLoop (outfile st) rk, Raise e)
                    | Ok out => (mkLoop out rk, Ok tt)
                    end
                end
              else (st, Ok tt)
          end
      end
  end.

Fixpoint rows_loop (reader : SimpleDictReader.t) (writer : SimpleDictWriter.t)
    (self_codes : option (list str)) (key_column : str)
    (record_relevant_keys : option (list str))
    (lines : list str) (st : loop_state) : loop_state * result unit :=
  match lines with
  | [] => (st, Ok tt)
  | line :: lines' =>
      match row_step reader writer self_codes key_column record_relevant_keys st line with
      | (st', Ok _) =>
          rows_loop reader writer self_codes key_column record_relevant_keys lines' st'
      | (st', Raise e) => (st', Raise e)
      end
  end.

(** [open(output_file, 'w')] creates or empties the file before anything is
    read, so an input that is also the output is read back empty. *)
Definition extract_data (self : DataExtractor) (fs : filesystem)
    (input_file output_file key_column : str)
    (record_relevant_keys : option (list str))
  : (filesystem * DataExtractor) * result (option (gmap str (list str))) :=
  match fs !! input_file with
  | None => ((fs, self), Raise (FileNotFoundError input_file))
  | Some _ =>
      let fs := <[output_file := []]> fs in
      let infile := lines_of false (default [] (fs !! input_file)) in
      let '(first, infile) := readline infile in
      match split [COMMA] (strip first) with
      | Raise e => ((fs, self), Raise e)
      | Ok header =>
          let reader := SimpleDictReader.new header in
          let writer := SimpleDictWriter.new header in
          match SimpleDictWriter.writerow writer []
                  (dict ((fun key => (key, key)) <$> SimpleDictWriter.fieldnames writer)) with
          | Raise e => ((fs, self), Raise e)
          | Ok out =>
              let rk :=
                if list_truthy record_relevant_keys
                then dict ((fun key => (key, [])) <$> default [] record_relevant_keys)
                else relevant_keys self in
              let '(st, r) :=
                rows_loop reader writer (codes self) key_column record_relevant_keys
                  infile (mkLoop out rk) in
              let self := set_relevant_keys (harvest st) self in
              let fs := <[output_file := outfile st]> fs in
              match r with
              | Raise e => ((fs, self), Raise e)
              | Ok _ =>
                  ((fs, self),
                   Ok (if dict_truthy (relevant_keys self)
                       then Some (relevant_keys self) else None))
              end
          end
      end
  end.

(** ** process_extraction_info *)

(** One entry of ["extraction_info"]. *)
Record extraction : Type := mkExtraction {
  input : str;
  output : str;
  key_column : str;
  e_relevant_keys : option (list str)
}.

(** The decoded JSON document: ["main"] holds the sample file and the main
    key column. *)
Record extraction_file : Type := mkConfig {
  main : str * str;
  extraction_info : list extraction
}.

(** The state of the loop over [extraction_info]: the files, the extractor
    and the local variable [codes]. *)
Record run_state : Type := mkRun {
  files : filesystem;
  data_extractor : DataExtractor;
  last_codes : option (gmap str (list str))
}.

(** The body of [for extraction in extraction_info:]. *)
Definition stage_step (st : run_state) (e : extraction) : run_state * result unit :=
  let data_extractor :=
    match last_codes st with
    | Some c =>
        if dict_truthy c
        then set_codes (c !! key_column e) (data_extractor st)
        else data_extractor st
    | None => data_extractor st
    end in
  match extract_data data_extractor (files st)
          (input e) (output e) (key_column e) (e_relevant_keys e) with
  | ((fs, self), Ok c) => (mkRun fs self c, Ok tt)
  | ((fs, self), Raise err) => (mkRun fs self (last_codes st), Raise err)
  end.

Fixpoint run_stages (stages : list extraction) (st : run_state)
  : run_state * result unit :=
  match stages with
  | [] => (st, Ok tt)
  | e :: stages' =>
      match stage_step st e with
      | (st', Ok _) => run_stages stages' st'
      | (st', Raise err) => (st', Raise err)
      end
  end.

Definition process_extraction_info (data : extraction_file) (fs : filesystem)
  : filesystem * result unit :=
  let infiles := input <$> extraction_info data in
  let '(sample_file, main_key_column) := main data in
  match __init__ sample_file main_key_column true (Some infiles) fs with
  | (fs, Raise e) => (fs, Raise e)
  | (fs, Ok data_extractor) =>
      let '(st, r) := run_stages (extraction_info data) (mkRun fs data_extractor None) in
      (files st, r)
  end.

(** ** Vocabulary of the statements *)

(** [p in x] for strings: [p] occurs somewhere in [x]. *)
Fixpoint occurs (p x : str) : bool :=
  startswith x p ||
  match x with
  | [] => false
  | _ :: x' => occurs p x'
  end.

(** The writer's quoting of one value, as [_format_row] computes it. *)
Definition quote_field (quotechar v : str) : str :=
  if contains DQ v then v else quotechar ++ v ++ quotechar.

(** The quoting of one value in the words of the specification: wrapped in
    the configured quote character exactly when that character does not occur
    in the value. *)
Definition quote_field_spec (quotechar v : str) : str :=
  if occurs quotechar v then v else quotechar ++ v ++ quotechar.

(** The line [writerow] appends for the header and for a record, with the
    default delimiter and quote character. *)
Definition header_line (header : list str) : str :=
  join [COMMA] (quote_field [DQ] <$> header) ++ [NL].

Definition row_line (header : list str) (row : gmap str str) : str :=
  join [COMMA] ((fun field => quote_field [DQ] (row !!! field)) <$> header) ++ [NL].

(** The header and the records of an input file as [extract_data] reads
    them. *)
Definition header_of (content : str) : list str :=
  split_go [COMMA] O (strip (readline (lines_of false content)).1).

Definition record_of (header : list str) (line : str) : gmap str str :=
  dict (zip header (split_go [COMMA] O (rstrip_nl line))).

Definition records_of (content : str) : list (gmap str str) :=
  record_of (header_of content) <$> (readline (lines_of false content)).2.

(** The same for the sample file, which [read_codes] opens with the default
    newline translation. *)
Definition sample_records (content : str) : list (gmap str str) :=
  let lines := lines_of true content in
  record_of (split_go [COMMA] O (strip (readline lines).1)) <$> (readline lines).2.

(** The records a stage keeps. *)
Definition matching (key_column : str) (cs : list str)
    (rows : list (gmap str str)) : list (gmap str str) :=
  filter (fun row => row !!! key_column ∈ cs) rows.

(** The values of [field] in [rows], in order, each taken [n] times. *)
Definition harvested (field : str) (n : nat) (rows : list (gmap str str))
  : list str :=
  flat_map (fun row => from_option (replicate n) [] (row !! field)) rows.

Definition occurrences (field : str) (fields : list str) : nat :=
  length (filter (fun f => f = field) fields).

Arguments harvested : simpl never.
Arguments occurrences : simpl never.

(** [self.relevant_keys] after the matching rows [rows] have been recorded. *)
Definition harvest_after (fields : list str) (rows : list (gmap str str))
    (rk : gmap str (list str)) : gmap str (list str) :=
  map_imap (fun k l => Some (l ++ harvested k (occurrences k fields) rows)) rk.

(** The single characters that are keys of [quote_mapping]. *)
Definition quote_like (c : N) : bool :=
  bool_decide (c ∈ flat_map (fun kv => match kv.1 with [k] => [k] | _ => [] end)
                     quote_mapping).


(** A record the loop of [extract_data] passes without raising: it has the
    key column and, when it matches, every field of the header. *)
Definition writable (header : list str) (cs : list str) (key_column : str)
    (row : gmap str str) : Prop :=
  is_Some (row !! key_column) ∧
  (row !!! key_column ∈ cs → ∀ field, field ∈ header → is_Some (row !! field)).

Definition is_Ok {A : Type} (r : result A) : Prop := ∃ a, r = Ok a.

(** ** Concrete files and runs *)

Definition ln (x : string) : str := lit x ++ [NL].
Definition quoted (x : string) : str := [DQ] ++ lit x ++ [DQ].

(** Header [id,name] and the single line [1]. *)
Definition short_csv : str := ln "id,name" ++ ln "1".
Definition short_fs : filesystem := {[ lit "in.csv" := short_csv ]}.
Definition extractor_1 : DataExtractor :=
  mkDataExtractor (lit "sample.csv") (Some [lit "1"]) ∅.

(** Scenario A of the specification. *)
Definition people_csv : str :=
  ln "id,name" ++ ln "1,alice" ++ ln "2,bob" ++ ln "3,carol".
Definition people_fs : filesystem := {[ lit "in.csv" := people_csv ]}.
Definition extractor_13 : DataExtractor :=
  mkDataExtractor (lit "sample.csv") (Some [lit "1"; lit "3"]) ∅.

Definition straight_fs : filesystem := {[ lit "in.csv" := ln "'hello'" ]}.


(** A writer configured with the straight single quote. *)
Definition single_quote_writer : SimpleDictWriter.t :=
  SimpleDictWriter.mk [lit "a"] [COMMA] (lit "'").

(** Regions. *)
Definition regions_csv : str :=
  ln "id,region" ++ ln "1,north" ++ ln "2,south" ++ ln "1,east".
Definition regions_fs : filesystem := {[ lit "in.csv" := regions_csv ]}.

(** A sample file whose key column repeats a value. *)
Definition sample_csv : str := ln "id" ++ ln "1" ++ ln "1" ++ ln "2".
Definition sample_fs : filesystem :=
  {[ lit "sample.csv" := sample_csv; lit "other.csv" := ln "id" ++ ln "9" ]}.

(** A chain of three stages; only the first declares relevant keys. *)
Definition stage_a : extraction :=
  mkExtraction (lit "a.csv") (lit "a_out.csv") (lit "id")
    (Some [lit "region"; lit "city"]).
Definition stage_b : extraction :=
  mkExtraction (lit "b.csv") (lit "b_out.csv") (lit "region") None.
Definition stage_c : extraction :=
  mkExtraction (lit "c.csv") (lit "c_out.csv") (lit "city") None.
Definition stage_d : extraction :=
  mkExtraction (lit "c.csv") (lit "c_out.csv") (lit "country") None.

Definition chain_fs : filesystem :=
  {[ lit "sample.csv" := ln "id" ++ ln "1";
     lit "a.csv" := ln "id,region,city" ++ ln "1,north,paris" ++ ln "2,south,rome";
     lit "b.csv" := ln "region,x" ++ ln "north,5" ++ ln "south,6";
     lit "c.csv" := ln "city,y" ++ ln "paris,7" ++ ln "rome,8" ]}.

(** The loop of [process_extraction_info] entered with the seed codes. *)
Definition chain_start : run_state :=
  mkRun chain_fs (mkDataExtractor (lit "sample.csv") (Some [lit "1"]) ∅) None.

(** The same chain over input files without a single line, the only inputs
    [preprocess_data] lets through. *)
Definition empty_chain_fs : filesystem :=
  {[ lit "sample.csv" := ln "id" ++ ln "1";
     lit "a.csv" := [];
     lit "b.csv" := [];
     lit "c.csv" := [] ]}.

Definition empty_chain : extraction_file :=
  mkConfig (lit "sample.csv", lit "id") [stage_a; stage_b; stage_d].

Definition empty_chain_start : run_state :=
  mkRun empty_chain_fs (mkDataExtractor (lit "sample.csv") (Some [lit "1"]) ∅) None.

(** Two stages: the second filters on a column the first did not harvest. *)
Definition stage_region_only : extraction :=
  mkExtraction (lit "a.csv") (lit "a_out.csv") (lit "id") (Some [lit "region"]).
Definition stage_city : extraction :=
  mkExtraction (lit "b.csv") (lit "b_out.csv") (lit "city") None.
Definition unharvested_key : extraction_file :=
  mkConfig (lit "sample.csv", lit "id") [stage_region_only; stage_city].

(** The state in which a second stage starts once [stage_region_only] has
    run over files that hold records, and a second stage whose key column
    [x] is a column of its input but was not harvested. *)
Definition after_region_stage : run_state :=
  (stage_step chain_start stage_region_only).1.
Definition stage_x : extraction :=
  mkExtraction (lit "b.csv") (lit "b_out.csv") (lit "x") None.

(** The files after Scenario A, and the two rows its output holds. *)
Definition people_written_fs : filesystem :=
  (extract_data extractor_13 people_fs
     (lit "in.csv") (lit "out.csv") (lit "id") None).1.1.
Definition people_written_rows : str :=
  quoted "1" ++ [COMMA] ++ quoted "alice" ++ [NL]
  ++ quoted "3" ++ [COMMA] ++ quoted "carol" ++ [NL].

(** * Properties *)

(** Closed statements about concrete files are settled by evaluation. *)
Ltac by_evaluation := cbv zeta; repeat split; by vm_compute.
Ltac decide_by_evaluation := apply (bool_decide_unpack _); by vm_compute.

(** ** Comprehensions and dictionaries *)

Section helpers.
Context {A B : Type}.

Lemma comprehension_total (f : A → result B) (g : A → B) (xs : list A) :
  (∀ x, x ∈ xs → f x = Ok (g x)) → comprehension f xs = Ok (g <$> xs).
Proof.
  induction xs as [|x xs IH]; intros Hf; simpl; [done|].
  rewrite Hf by left. simpl. rewrite IH; [done|].
  intros y Hy. apply Hf. by right.
Qed.

End helpers.

Section dict.
Context {V : Type}.

Lemma dict_foldl (pairs : list (str * V)) (m : gmap str V) :
  foldl (fun m kv => <[kv.1 := kv.2]> m) m pairs
  = list_to_map (reverse pairs) ∪ m.
Proof.
  revert m. induction pairs as [|[k v] pairs IH]; intros m; simpl.
  - by rewrite (left_id_L ∅ (∪)).
  - rewrite IH, reverse_cons, list_to_map_app. simpl.
    rewrite <- (assoc_L (∪)). f_equal.
    rewrite insert_empty. by rewrite <- insert_union_singleton_l.
Qed.

Lemma dict_list_to_map (pairs : list (str * V)) :
  dict pairs = list_to_map (reverse pairs).
Proof. unfold dict. rewrite dict_foldl. by rewrite (right_id_L ∅ (∪)). Qed.

Lemma dict_lookup_is_Some (pairs : list (str * V)) (k : str) :
  is_Some (dict pairs !! k) ↔ k ∈ pairs.*1.
Proof.
  rewrite dict_list_to_map. rewrite <- elem_of_dom, dom_list_to_map_L.
  rewrite elem_of_list_to_set, fmap_reverse, elem_of_reverse. done.
Qed.

(** A dict comprehension [{k: g(k) for k in ks}]. *)
Lemma dict_comprehension_lookup (g : str → V) (ks : list str) (k : str) :
  dict ((fun k => (k, g k)) <$> ks) !! k
  = if decide (k ∈ ks) then Some (g k) else None.
Proof.
  assert (∀ m : gmap str V,
    foldl (fun m kv => <[kv.1 := kv.2]> m) m ((fun k => (k, g k)) <$> ks) !! k
    = if decide (k ∈ ks) then Some (g k) else m !! k) as H.
  { induction ks as [|k0 ks IH]; intros m.
    - simpl. destruct (decide (k ∈ [])) as [Hin|_]; [by apply elem_of_nil in Hin|done].
    - rewrite fmap_cons. simpl foldl. rewrite IH.
      destruct (decide (k ∈ ks)) as [Hin|Hnin].
      + rewrite decide_True; [done|by right].
      + destruct (decide (k = k0)) as [->|Hne].
        * rewrite lookup_insert_eq. rewrite decide_True; [done|by left].
        * rewrite lookup_insert_ne by done.
          rewrite decide_False; [done|]. rewrite elem_of_cons. tauto. }
  unfold dict. rewrite H. by rewrite lookup_empty.
Qed.
End dict.

Section dict_positions.
Context {V : Type}.

Lemma dict_lookup_last (before after : list (str * V)) (k : str) (v : V) :
  k ∉ after.*1 → dict (before ++ (k, v) :: after) !! k = Some v.
Proof.
  intros Hk. unfold dict. rewrite foldl_app. simpl.
  rewrite dict_foldl, lookup_union_r.
  - apply lookup_insert_eq.
  - apply not_elem_of_list_to_map_1.
    by rewrite fmap_reverse, elem_of_reverse.
Qed.

(** In [dict(zip(keys, values))] a key holds the value at its own position
    unless the key comes again further on among the paired positions. *)
Lemma dict_zip_lookup (keys : list str) (values : list V) (i : nat) (k : str) (v : V) :
  keys !! i = Some k → values !! i = Some v →
  (∀ j, (i < j)%nat → (j < length values)%nat → keys !! j ≠ Some k) →
  dict (zip keys values) !! k = Some v.
Proof.
  intros Hk Hv Hlast.
  assert (zip keys values !! i = Some (k, v)) as Hz by by apply lookup_zip_Some.
  rewrite <- (take_drop_middle _ _ _ Hz).
  apply dict_lookup_last.
  intros Hin. apply list_elem_of_fmap in Hin as [[k' v'] [Heq Hin]].
  simpl in Heq. subst k'.
  apply list_elem_of_lookup in Hin as [j Hj].
  rewrite lookup_drop in Hj. apply lookup_zip_Some in Hj as [Hkj Hvj].
  apply (Hlast (S i + j)%nat); [lia| |done].
  by apply lookup_lt_Some in Hvj.
Qed.

Lemma dict_zip_dom (keys : list str) (values : list V) (k : str) :
  is_Some (dict (zip keys values) !! k) ↔ k ∈ take (length values) keys.
Proof.
  rewrite dict_lookup_is_Some.
  assert ((zip keys values).*1 = take (length values) keys) as ->; [|done].
  revert values. induction keys as [|k0 keys IH]; intros [|v0 values]; simpl;
    try done.
  by rewrite IH.
Qed.

Lemma zip_take_keys (keys : list str) (values : list V) :
  zip keys values = zip (take (length values) keys) values.
Proof.
  revert values. induction keys as [|k0 keys IH]; intros [|v0 values]; simpl;
    try done.
  by rewrite <- IH.
Qed.

Lemma zip_take_values (keys : list str) (values : list V) :
  zip keys values = zip keys (take (length keys) values).
Proof.
  revert values. induction keys as [|k0 keys IH]; intros [|v0 values]; simpl;
    try done.
  by rewrite <- IH.
Qed.

(** With distinct keys and as many values, reading the keys back in order
    gives the values. *)
Lemma dict_zip_readback `{!Inhabited V} (keys : list str) (values : list V) :
  NoDup keys → length values = length keys →
  (fun k => dict (zip keys values) !!! k) <$> keys = values.
Proof.
  intros Hnd Hlen. apply list_eq. intros i. rewrite list_lookup_fmap.
  destruct (keys !! i) as [k|] eqn:Hk; simpl.
  - destruct (lookup_lt_is_Some_2 values i) as [v Hv].
    { rewrite Hlen. by apply lookup_lt_Some in Hk. }
    rewrite Hv. f_equal. apply lookup_total_correct.
    apply (dict_zip_lookup keys values i); [done..|].
    intros j Hij _ Hj. apply (NoDup_lookup _ _ _ _ Hnd Hk) in Hj. lia.
  - symmetry. apply lookup_ge_None. rewrite Hlen. by apply lookup_ge_None.
Qed.
End dict_positions.

(** ** The reader and the writer *)

Lemma parse_row_default (header : list str) (line : str) :
  SimpleDictReader._parse_row (SimpleDictReader.new header) line
  = Ok (record_of header line).
Proof. reflexivity. Qed.

Lemma format_row_total (self : SimpleDictWriter.t) (row : gmap str str) :
  (∀ field, field ∈ SimpleDictWriter.fieldnames self → is_Some (row !! field)) →
  SimpleDictWriter._format_row self row
  = Ok (join (SimpleDictWriter.delimiter self)
          ((fun field => quote_field (SimpleDictWriter.quotechar self) (row !!! field))
             <$> SimpleDictWriter.fieldnames self)).
Proof.
  intros Hall. unfold SimpleDictWriter._format_row.
  erewrite comprehension_total; [done|].
  intros field Hin. destruct (Hall field Hin) as [v Hv].
  unfold getitem. rewrite Hv. simpl.
  rewrite (lookup_total_correct _ _ _ Hv). unfold quote_field.
  by destruct (contains DQ v).
Qed.

Lemma comprehension_raise_at {A B : Type} (f : A → result B)
    (before : list A) (x : A) (after : list A) (e : exn) :
  (∀ y, y ∈ before → is_Ok (f y)) → f x = Raise e →
  comprehension f (before ++ x :: after) = Raise e.
Proof.
  intros Hbefore Hx. induction before as [|y before IH]; simpl.
  - by rewrite Hx.
  - destruct (Hbefore y) as [b Hb]; [by left|]. rewrite Hb. simpl.
    rewrite IH; [done|]. intros z Hz. apply Hbefore. by right.
Qed.

Lemma format_row_KeyError (self : SimpleDictWriter.t) (row : gmap str str)
    (present : list str) (field : str) (rest : list str) :
  SimpleDictWriter.fieldnames self = present ++ field :: rest →
  (∀ f, f ∈ present → is_Some (row !! f)) → row !! field = None →
  SimpleDictWriter._format_row self row = Raise (KeyError field).
Proof.
  intros Hnames Hpresent Hfield. unfold SimpleDictWriter._format_row.
  rewrite Hnames.
  rewrite (comprehension_raise_at _ present field rest (KeyError field)); [done| |].
  - intros f Hf. destruct (Hpresent f Hf) as [v Hv].
    unfold getitem. rewrite Hv. simpl. by eexists.
  - unfold getitem. by rewrite Hfield.
Qed.

Lemma writerow_total (self : SimpleDictWriter.t) (file : str) (row : gmap str str) :
  (∀ field, field ∈ SimpleDictWriter.fieldnames self → is_Some (row !! field)) →
  SimpleDictWriter.writerow self file row
  = Ok (file ++ join (SimpleDictWriter.delimiter self)
          ((fun field => quote_field (SimpleDictWriter.quotechar self) (row !!! field))
             <$> SimpleDictWriter.fieldnames self) ++ [NL]).
Proof.
  intros Hall. unfold SimpleDictWriter.writerow.
  by rewrite format_row_total.
Qed.

(** ** Recording the relevant keys *)

Lemma harvested_nil (field : str) (n : nat) : harvested field n [] = [].
Proof. reflexivity. Qed.

Lemma harvested_cons (field : str) (n : nat) (row : gmap str str)
    (rows : list (gmap str str)) :
  harvested field n (row :: rows)
  = from_option (replicate n) [] (row !! field) ++ harvested field n rows.
Proof. reflexivity. Qed.

Lemma harvested_zero (field : str) (rows : list (gmap str str)) :
  harvested field 0 rows = [].
Proof.
  induction rows as [|row rows IH]; [done|].
  rewrite harvested_cons, IH. by destruct (row !! field).
Qed.

Lemma occurrences_cons (field f : str) (fields : list str) :
  occurrences field (f :: fields)
  = if decide (f = field) then S (occurrences field fields)
    else occurrences field fields.
Proof. unfold occurrences. rewrite filter_cons. by destruct (decide (f = field)). Qed.

Lemma harvest_after_lookup (fields : list str) (rows : list (gmap str str))
    (rk : gmap str (list str)) (k : str) :
  harvest_after fields rows rk !! k
  = (fun l => l ++ harvested k (occurrences k fields) rows) <$> rk !! k.
Proof.
  unfold harvest_after. rewrite map_lookup_imap. by destruct (rk !! k).
Qed.

Lemma harvest_after_no_fields (rows : list (gmap str str)) (rk : gmap str (list str)) :
  harvest_after [] rows rk = rk.
Proof.
  apply map_eq. intros k. rewrite harvest_after_lookup.
  change (occurrences k []) with O. rewrite harvested_zero.
  destruct (rk !! k); simpl; [|done]. by rewrite (right_id_L [] (++)).
Qed.

Lemma harvest_after_no_rows (fields : list str) (rk : gmap str (list str)) :
  harvest_after fields [] rk = rk.
Proof.
  apply map_eq. intros k. rewrite harvest_after_lookup.
  rewrite harvested_nil.
  destruct (rk !! k); simpl; [|done]. by rewrite (right_id_L [] (++)).
Qed.

Lemma record_keys_total (fields : list str) (row : gmap str str)
    (rk : gmap str (list str)) :
  (∀ k, k ∈ fields → is_Some (rk !! k)) →
  record_keys fields row rk = Ok (harvest_after fields [row] rk).
Proof.
  unfold record_keys. revert rk.
  induction fields as [|k0 fields IH]; intros rk Hkeys; simpl.
  - by rewrite harvest_after_no_fields.
  - destruct (row !! k0) as [v|] eqn:Hrow; simpl.
    + destruct (Hkeys k0) as [l0 Hl0]; [by left|].
      unfold getitem. rewrite Hl0. simpl. rewrite IH.
      * f_equal. apply map_eq. intros k. rewrite !harvest_after_lookup.
        rewrite occurrences_cons, !harvested_cons, !harvested_nil.
        rewrite !(right_id_L [] (++)).
        destruct (decide (k0 = k)) as [->|Hne].
        -- rewrite lookup_insert_eq, Hl0, Hrow. simpl.
           by rewrite <- (assoc_L (++)).
        -- by rewrite lookup_insert_ne.
      * intros k Hk. destruct (decide (k0 = k)) as [->|Hne].
        -- rewrite lookup_insert_eq. by eexists.
        -- rewrite lookup_insert_ne by done. apply Hkeys. by right.
    + rewrite IH.
      * f_equal. apply map_eq. intros k. rewrite !harvest_after_lookup.
        rewrite occurrences_cons, !harvested_cons, !harvested_nil.
        destruct (decide (k0 = k)) as [->|Hne]; [|done].
        by rewrite Hrow.
      * intros k Hk. apply Hkeys. by right.
Qed.

(** ** The loop of [extract_data] *)

Section stage_loop.
Variable header : list str.
Variable cs : list str.
Variable key_column : str.
Variable record_relevant_keys : option (list str).

Local Abbreviation reader := (SimpleDictReader.new header).
Local Abbreviation writer := (SimpleDictWriter.new header).
Local Abbreviation fields := (default [] record_relevant_keys).

Lemma row_step_missing_key (codes : option (list str)) (st : loop_state) (line : str) :
  record_of header line !! key_column = None →
  row_step reader writer codes key_column record_relevant_keys st line
  = (st, Raise (KeyError key_column)).
Proof.
  intros Hnone. unfold row_step. rewrite parse_row_default.
  unfold getitem. by rewrite Hnone.
Qed.

Lemma row_step_no_codes (st : loop_state) (line : str) :
  is_Some (record_of header line !! key_column) →
  row_step reader writer None key_column record_relevant_keys st line
  = (st, Raise TypeError).
Proof.
  intros [code Hcode]. unfold row_step. rewrite parse_row_default.
  unfold getitem. by rewrite Hcode.
Qed.

Lemma fields_no_harvest :
  list_truthy record_relevant_keys = false → fields = [].
Proof. by destruct record_relevant_keys as [[|]|]. Qed.

Lemma row_step_writable (st : loop_state) (line : str) :
  let row := record_of header line in
  writable header cs key_column row →
  (∀ k, k ∈ fields → is_Some (harvest st !! k)) →
  row_step reader writer (Some cs) key_column record_relevant_keys st line
  = (mkLoop (outfile st ++ concat (row_line header <$> matching key_column cs [row]))
            (harvest_after fields (matching key_column cs [row]) (harvest st)),
     Ok tt).
Proof.
  intros row [[code Hcode] Hfields] Hkeys.
  unfold row_step. rewrite parse_row_default. fold row.
  unfold getitem. rewrite Hcode.
  rewrite (lookup_total_correct _ _ _ Hcode) in Hfields.
  unfold matching. rewrite filter_cons, filter_nil.
  rewrite (lookup_total_correct _ _ _ Hcode).
  unfold list_contains.
  destruct (decide (code ∈ cs)) as [Hin|Hnin].
  - rewrite bool_decide_eq_true_2 by done.
    assert ((if list_truthy record_relevant_keys
             then record_keys (default [] record_relevant_keys) row (harvest st)
             else Ok (harvest st))
            = Ok (harvest_after fields [row] (harvest st))) as ->.
    { destruct (list_truthy record_relevant_keys) eqn:Ht.
      - by apply record_keys_total.
      - by rewrite (fields_no_harvest Ht), harvest_after_no_fields. }
    unfold writer. rewrite writerow_total by (by apply Hfields).
    simpl. unfold row_line. by rewrite (right_id_L [] (++)).
  - rewrite bool_decide_eq_false_2 by done.
    simpl. rewrite (right_id_L [] (++)), harvest_after_no_rows.
    by destruct st.
Qed.

Lemma matching_cons (row : gmap str str) (rows : list (gmap str str)) :
  matching key_column cs (row :: rows)
  = matching key_column cs [row] ++ matching key_column cs rows.
Proof.
  unfold matching. rewrite !filter_cons, filter_nil.
  by destruct (decide (row !!! key_column ∈ cs)).
Qed.

Lemma harvest_after_app (rows1 rows2 : list (gmap str str)) (rk : gmap str (list str)) :
  harvest_after fields rows2 (harvest_after fields rows1 rk)
  = harvest_after fields (rows1 ++ rows2) rk.
Proof.
  apply map_eq. intros k. rewrite !harvest_after_lookup.
  destruct (rk !! k) as [l|]; simpl; [|done].
  unfold harvested. rewrite flat_map_app. by rewrite <- (assoc_L (++)).
Qed.

Lemma rows_loop_writable (lines : list str) (st : loop_state) :
  Forall (fun line => writable header cs key_column (record_of header line)) lines →
  (∀ k, k ∈ fields → is_Some (harvest st !! k)) →
  let rows := matching key_column cs (record_of header <$> lines) in
  rows_loop reader writer (Some cs) key_column record_relevant_keys lines st
  = (mkLoop (outfile st ++ concat (row_line header <$> rows))
            (harvest_after fields rows (harvest st)),
     Ok tt).
Proof.
  intros Hall. revert st.
  induction Hall as [|line lines Hline Hlines IH]; intros st Hkeys.
  - simpl. rewrite (right_id_L [] (++)), harvest_after_no_rows. by destruct st.
  - cbn [rows_loop]. rewrite fmap_cons.
    rewrite (row_step_writable st line Hline Hkeys).
    match goal with
    | |- rows_loop _ _ _ _ _ _ ?st1 = _ =>
        assert (∀ k, k ∈ fields → is_Some (harvest st1 !! k)) as Hkeys1
    end.
    { intros k Hk. simpl. rewrite harvest_after_lookup.
      destruct (Hkeys k Hk) as [l ->]. by eexists. }
    pose proof (IH _ Hkeys1) as IH1. cbv zeta in IH1. rewrite IH1. simpl.
    rewrite (matching_cons (record_of header line) (record_of header <$> lines)).
    rewrite fmap_app, concat_app.
    rewrite harvest_after_app. by rewrite <- app_assoc.
Qed.
End stage_loop.

(** ** extract_data on inputs it passes without raising *)

Lemma header_row_written (header : list str) :
  SimpleDictWriter.writerow (SimpleDictWriter.new header) []
    (dict ((fun key => (key, key)) <$> header))
  = Ok (header_line header).
Proof.
  rewrite writerow_total.
  - simpl. unfold header_line. do 3 f_equal.
    apply list_fmap_ext. intros i field Hfield. f_equal.
    apply lookup_total_correct. rewrite dict_comprehension_lookup.
    rewrite decide_True; [done|]. by eapply list_elem_of_lookup_2.
  - simpl. intros field Hfield. rewrite dict_comprehension_lookup.
    by rewrite decide_True.
Qed.

(** [self.relevant_keys] when the loop starts. *)
Lemma fresh_keys_present (record_relevant_keys : option (list str))
    (rk : gmap str (list str)) (k : str) :
  k ∈ default [] record_relevant_keys →
  is_Some ((if list_truthy record_relevant_keys
            then dict ((fun key => (key, [])) <$> default [] record_relevant_keys)
            else rk) !! k).
Proof.
  intros Hk. destruct (list_truthy record_relevant_keys) eqn:Ht.
  - rewrite dict_comprehension_lookup. by rewrite decide_True.
  - rewrite (fields_no_harvest _ Ht) in Hk. by apply elem_of_nil in Hk.
Qed.

Lemma extract_data_writable (self : DataExtractor) (fs : filesystem)
    (input_file output_file key_column : str)
    (record_relevant_keys : option (list str)) (cs : list str) (content : str) :
  fs !! input_file = Some content → input_file ≠ output_file →
  codes self = Some cs →
  Forall (writable (header_of content) cs key_column) (records_of content) →
  let header := header_of content in
  let rows := matching key_column cs (records_of content) in
  let rk :=
    harvest_after (default [] record_relevant_keys) rows
      (if list_truthy record_relevant_keys
       then dict ((fun key => (key, [])) <$> default [] record_relevant_keys)
       else relevant_keys self) in
  extract_data self fs input_file output_file key_column record_relevant_keys
  = ((<[output_file := header_line header ++ concat (row_line header <$> rows)]> fs,
      set_relevant_keys rk self),
     Ok (if dict_truthy rk then Some rk else None)).
Proof.
  intros Hin Hne Hcodes Hall. cbv zeta.
  unfold extract_data. rewrite Hin.
  rewrite lookup_insert_ne by done. rewrite Hin. simpl default.
  unfold records_of, header_of in *.
  destruct (readline (lines_of false content)) as [first rest] eqn:Hrl.
  simpl in Hall |- *.
  set (header := split_go [COMMA] 0 (strip first)) in *.
  rewrite header_row_written.
  rewrite Forall_fmap in Hall.
  rewrite Hcodes.
  rewrite (rows_loop_writable header cs key_column record_relevant_keys rest _ Hall).
  - simpl. by rewrite insert_insert_eq.
  - intros k Hk. simpl. by apply fresh_keys_present.
Qed.

(** * The claims *)

(** ** C1: a record without the key column *)

(** C1, the claim as stated fails. Under the header [id,name] the line [1]
    gives a record without [name]. Filtering on [name] does not pass the
    record over: [row[key_column]] raises [KeyError], the stage stops, and
    the output holds the header row only. *)
Lemma extract_data_missing_key_raises :
  let r := extract_data extractor_1 short_fs
             (lit "in.csv") (lit "out.csv") (lit "name") None in
  records_of short_csv = [ {[ lit "id" := lit "1" ]} ] ∧
  r.2 = Raise (KeyError (lit "name")) ∧
  r.1.1 !! lit "out.csv" = Some (header_line [lit "id"; lit "name"]).
Proof. by_evaluation. Qed.

Lemma rows_loop_app (reader : SimpleDictReader.t) (writer : SimpleDictWriter.t)
    (codes : option (list str)) (key_column : str)
    (record_relevant_keys : option (list str))
    (lines1 lines2 : list str) (st : loop_state) :
  rows_loop reader writer codes key_column record_relevant_keys (lines1 ++ lines2) st
  = match rows_loop reader writer codes key_column record_relevant_keys lines1 st with
    | (st', Ok _) =>
        rows_loop reader writer codes key_column record_relevant_keys lines2 st'
    | (st', Raise e) => (st', Raise e)
    end.
Proof.
  revert st. induction lines1 as [|line lines1 IH]; intros st; [done|].
  simpl. destruct (row_step _ _ _ _ _ st line) as [st1 [[]|e]]; [apply IH|done].
Qed.

(** Whatever the codes are, a stage whose input has a record without the
    key column does not return. *)
Lemma rows_loop_missing_key (header : list str) (codes : option (list str))
    (key_column : str) (record_relevant_keys : option (list str))
    (lines : list str) (st : loop_state) :
  Exists (fun line => record_of header line !! key_column = None) lines →
  ∃ st' e,
    rows_loop (SimpleDictReader.new header) (SimpleDictWriter.new header)
      codes key_column record_relevant_keys lines st
    = (st', Raise e).
Proof.
  intros Hex. revert st.
  induction lines as [|line lines IH]; intros st; [by inversion Hex|].
  cbn [rows_loop].
  destruct (row_step _ _ codes key_column record_relevant_keys st line)
    as [st1 [[]|e]] eqn:Hstep; [|by eauto].
  apply Exists_cons in Hex as [Hnone|Hex]; [|by apply IH].
  by rewrite row_step_missing_key in Hstep.
Qed.

Lemma extract_data_missing_key (self : DataExtractor) (fs : filesystem)
    (input_file output_file key_column : str)
    (record_relevant_keys : option (list str)) (content : str) :
  fs !! input_file = Some content → input_file ≠ output_file →
  Exists (fun row => row !! key_column = None) (records_of content) →
  ∃ e, (extract_data self fs input_file output_file key_column
          record_relevant_keys).2 = Raise e.
Proof.
  intros Hin Hne Hex. unfold extract_data. rewrite Hin.
  rewrite lookup_insert_ne by done. rewrite Hin. simpl default.
  unfold records_of, header_of in Hex.
  destruct (readline (lines_of false content)) as [first rest].
  cbn [fst snd split] in *.
  rewrite header_row_written. apply Exists_fmap in Hex.
  match goal with
  | |- context [rows_loop _ _ ?c ?k ?r ?l ?st] =>
      destruct (rows_loop_missing_key _ c k r l st Hex) as (st' & e & ->)
  end.
  by exists e.
Qed.

(** C1 (amended). When the records before it pass, a record whose fields
    do not include the key column makes the filtering step raise
    [KeyError(key_column)]: [extract_data] stops there, the record is not
    written, and the output file holds the header row and the matching
    records that came before. *)
Theorem extract_data_missing_key_column (self : DataExtractor) (fs : filesystem)
    (input_file output_file key_column : str)
    (record_relevant_keys : option (list str)) (members : list str)
    (content : str) (before after : list (gmap str str)) (row : gmap str str) :
  fs !! input_file = Some content →
  input_file ≠ output_file →
  codes self = Some members →
  records_of content = before ++ row :: after →
  Forall (writable (header_of content) members key_column) before →
  row !! key_column = None →
  let r := extract_data self fs input_file output_file key_column
             record_relevant_keys in
  r.2 = Raise (KeyError key_column) ∧
  r.1.1 !! output_file
  = Some (header_line (header_of content)
          ++ concat (row_line (header_of content)
                       <$> matching key_column members before)).
Proof.
  intros Hin Hne Hcodes Hrows Hbefore Hrow. cbv zeta.
  unfold extract_data. rewrite Hin.
  rewrite lookup_insert_ne by done. rewrite Hin. simpl default.
  unfold records_of, header_of in *.
  destruct (readline (lines_of false content)) as [first rest].
  cbn [fst snd split] in *.
  set (header := split_go [COMMA] 0 (strip first)) in *.
  apply fmap_app_inv in Hrows as (lines1 & lines' & -> & Hrows & ->).
  symmetry in Hrows.
  apply fmap_cons_inv in Hrows as (line & lines2 & -> & -> & ->).
  rewrite Forall_fmap in Hbefore.
  rewrite header_row_written, Hcodes, rows_loop_app.
  rewrite (rows_loop_writable header members key_column record_relevant_keys
             lines1 _ Hbefore).
  - cbn [rows_loop]. rewrite row_step_missing_key by done.
    simpl. rewrite insert_insert_eq, lookup_insert_eq. done.
  - intros k Hk. simpl. by apply fresh_keys_present.
Qed.

(** Scenario C: the line [1] under [id,name], filtered on [name]. *)
Lemma extract_data_missing_key_column_short :
  let r := extract_data extractor_1 short_fs
             (lit "in.csv") (lit "out.csv") (lit "name") None in
  r.2 = Raise (KeyError (lit "name")) ∧
  r.1.1 !! lit "out.csv"
  = Some (header_line (header_of short_csv)
          ++ concat (row_line (header_of short_csv)
                       <$> matching (lit "name") [lit "1"] [])).
Proof.
  apply (extract_data_missing_key_column extractor_1 short_fs
           (lit "in.csv") (lit "out.csv") (lit "name") None [lit "1"] short_csv
           [] [] {[ lit "id" := lit "1" ]}).
  - by vm_compute.
  - by vm_compute.
  - reflexivity.
  - by vm_compute.
  - constructor.
  - by vm_compute.
Defined.

(** ** C2: what a stage writes *)

(** C2, the claim as stated fails: every record of this input has the key
    column [id], the record of line [1] matches the codes, and the writer
    raises [KeyError] on its absent field [name]; the output stops after the
    header row. *)
Lemma extract_data_short_matching_row :
  let r := extract_data extractor_1 short_fs
             (lit "in.csv") (lit "out.csv") (lit "id") None in
  let header := header_of short_csv in
  let rows := records_of short_csv in
  short_fs !! lit "in.csv" = Some short_csv ∧
  codes extractor_1 = Some [lit "1"] ∧
  Forall (fun row => is_Some (row !! lit "id")) rows ∧
  r.2 = Raise (KeyError (lit "name")) ∧
  r.1.1 !! lit "out.csv"
  ≠ Some (header_line header
          ++ concat (row_line header <$> matching (lit "id") [lit "1"] rows)).
Proof.
  cbv zeta. split; [by vm_compute|]. split; [done|]. split.
  - decide_by_evaluation.
  - split; [by vm_compute|]. vm_compute. discriminate.
Qed.

(** C2 (amended). When the input and the output are different files, every
    record has the key column and every matching record has all the fields of
    the header, [extract_data] returns and the output file holds exactly the
    header row followed by the matching records, each serialized by the
    writer's quoting rule, in input order; no other file changes. *)
Theorem extract_data_filters (self : DataExtractor) (fs : filesystem)
    (input_file output_file key_column : str)
    (record_relevant_keys : option (list str)) (members : list str) (content : str) :
  fs !! input_file = Some content →
  input_file ≠ output_file →
  codes self = Some members →
  (∀ row, row ∈ records_of content → is_Some (row !! key_column)) →
  (∀ row, row ∈ records_of content → row !!! key_column ∈ members →
     ∀ field, field ∈ header_of content → is_Some (row !! field)) →
  let r := extract_data self fs input_file output_file key_column
             record_relevant_keys in
  is_Ok r.2 ∧
  r.1.1 !! output_file
  = Some (header_line (header_of content)
          ++ concat (row_line (header_of content)
                       <$> matching key_column members (records_of content))) ∧
  ∀ path, path ≠ output_file → r.1.1 !! path = fs !! path.
Proof.
  intros Hin Hne Hcodes Hkey Hfields. cbv zeta.
  rewrite (extract_data_writable self fs input_file output_file key_column
             record_relevant_keys members content Hin Hne Hcodes).
  - simpl. split; [by eexists|]. split.
    + by rewrite lookup_insert_eq.
    + intros path Hpath. by rewrite lookup_insert_ne.
  - apply Forall_forall. intros row Hrow. split; [by apply Hkey|].
    intros Hmatch. by apply Hfields.
Qed.

(** Scenario A: codes [1] and [3] keep alice and carol. *)
Lemma extract_data_filters_people :
  let r := extract_data extractor_13 people_fs
             (lit "in.csv") (lit "out.csv") (lit "id") None in
  is_Ok r.2 ∧
  r.1.1 !! lit "out.csv"
  = Some (header_line (header_of people_csv)
          ++ concat (row_line (header_of people_csv)
                       <$> matching (lit "id") [lit "1"; lit "3"]
                             (records_of people_csv))) ∧
  ∀ path, path ≠ lit "out.csv" → r.1.1 !! path = people_fs !! path.
Proof.
  apply (extract_data_filters extractor_13 people_fs (lit "in.csv") (lit "out.csv")
           (lit "id") None [lit "1"; lit "3"] people_csv).
  - by vm_compute.
  - by vm_compute.
  - reflexivity.
  - apply Forall_forall. decide_by_evaluation.
  - intros row Hrow _ field Hfield. revert field Hfield. apply Forall_forall.
    revert row Hrow. apply Forall_forall.
    decide_by_evaluation.
Defined.

Example scenario_A_output :
  (extract_data extractor_13 people_fs
     (lit "in.csv") (lit "out.csv") (lit "id") None).1.1 !! lit "out.csv"
  = Some (quoted "id" ++ [COMMA] ++ quoted "name" ++ [NL]
          ++ quoted "1" ++ [COMMA] ++ quoted "alice" ++ [NL]
          ++ quoted "3" ++ [COMMA] ++ quoted "carol" ++ [NL]).
Proof. by vm_compute. Qed.

(** ** C3: the quote normalizer *)

Lemma lines_of_nil (translate : bool) (x : str) :
  lines_of translate x = [] → x = [].
Proof.
  destruct x as [|c x]; [done|]. simpl.
  destruct (c =? NL); [done|].
  destruct (c =? CR).
  - destruct x as [|c' x]; [done|]. by destruct (c' =? NL).
  - by destruct (lines_of translate x).
Qed.

(** The table is never built: the second key of [quote_mapping] is two
    characters long. *)
Lemma maketrans_quote_mapping : maketrans quote_mapping = Raise ValueError.
Proof. reflexivity. Qed.

(** A file with at least one line stops [preprocess_data]. *)
Lemma preprocess_file_raises (fs : filesystem) (file : str) (content : str) :
  fs !! file = Some content → content ≠ [] →
  preprocess_file fs file = Raise ValueError.
Proof.
  intros Hfile Hne. unfold preprocess_file. rewrite Hfile.
  destruct (lines_of true content) as [|line lines] eqn:Hlines.
  - by apply lines_of_nil in Hlines.
  - cbn [comprehension]. by rewrite maketrans_quote_mapping.
Qed.

Lemma preprocess_file_unchanged (fs fs' : filesystem) (file : str) :
  preprocess_file fs file = Ok fs' → fs' = fs.
Proof.
  unfold preprocess_file. destruct (fs !! file) as [content|] eqn:Hfile; [|done].
  destruct (lines_of true content) as [|line lines] eqn:Hlines.
  - apply lines_of_nil in Hlines. subst content. simpl.
    intros [= <-]. by apply insert_id.
  - cbn [comprehension]. by rewrite maketrans_quote_mapping.
Qed.

Lemma preprocess_data_unchanged (files : list str) (fs : filesystem) :
  (preprocess_data files fs).1 = fs.
Proof.
  revert fs. induction files as [|file files IH]; intros fs; simpl; [done|].
  destruct (preprocess_file fs file) as [fs'|e] eqn:Hfile; [|done].
  apply preprocess_file_unchanged in Hfile. subst fs'. apply IH.
Qed.



(** The straight single quote is a key of the table, and is not replaced
    either: building the table raises before any line is translated. *)
Example preprocess_data_straight_single_quotes :
  let r := preprocess_data [lit "in.csv"] straight_fs in
  quote_like 39 = true ∧
  r.2 = Raise ValueError ∧
  r.1 !! lit "in.csv" = Some (ln "'hello'").
Proof. by_evaluation. Qed.


(** ** C4: a stage without relevant keys *)

(** [extract_data] leaves [self.codes] alone, so the codes a stage filters
    with are the extractor's codes once the stage has run. *)
Lemma extract_data_codes (self : DataExtractor) (fs : filesystem)
    (input_file output_file key_column : str)
    (record_relevant_keys : option (list str)) :
  codes (extract_data self fs input_file output_file key_column
           record_relevant_keys).1.2
  = codes self.
Proof.
  unfold extract_data. destruct (fs !! input_file); [|done].
  destruct (readline _) as [first infile].
  destruct (split _ _); [|done].
  destruct (SimpleDictWriter.writerow _ _ _); [|done].
  destruct (rows_loop _ _ _ _ _ _ _) as [st []]; done.
Qed.

(** C4 (the code departs from the claim). [stage_b] declares no relevant
    keys, yet the stage after it does not filter with the codes [stage_b]
    used: [extract_data] returns the map harvested by [stage_a] once more,
    and the loop looks the next key column up in it.

    - entered with files that hold records, [stage_b] filters with the
      harvested regions and [stage_c] with the harvested cities, keeping the
      row of [paris];
    - in a whole run (all inputs without lines, see C3), [stage_b] filters
      with the empty list of regions and [stage_d] with no list at all. *)
Theorem stale_harvest_replaces_codes :
  e_relevant_keys stage_b = None ∧
  (let after_b := (run_stages [stage_a; stage_b] chain_start).1 in
   let after_c := (run_stages [stage_a; stage_b; stage_c] chain_start).1 in
   codes (data_extractor after_b) = Some [lit "north"] ∧
   codes (data_extractor after_c) = Some [lit "paris"] ∧
   last_codes after_b
   = Some {[ lit "region" := [lit "north"]; lit "city" := [lit "paris"] ]} ∧
   files after_c !! lit "c_out.csv"
   = Some (quoted "city" ++ [COMMA] ++ quoted "y" ++ [NL]
           ++ quoted "paris" ++ [COMMA] ++ quoted "7" ++ [NL])) ∧
  (let init := __init__ (lit "sample.csv") (lit "id") true
                 (Some (input <$> extraction_info empty_chain)) empty_chain_fs in
   let after_b := (run_stages [stage_a; stage_b] empty_chain_start).1 in
   let after_d := (run_stages [stage_a; stage_b; stage_d] empty_chain_start).1 in
   init = (empty_chain_fs, Ok (data_extractor empty_chain_start)) ∧
   (process_extraction_info empty_chain empty_chain_fs).2 = Ok tt ∧
   codes (data_extractor after_b) = Some [] ∧
   codes (data_extractor after_d) = None).
Proof. by_evaluation. Qed.

(** Where no stage has harvested yet, the codes do carry over. *)
Lemma codes_carry_over (st : run_state) (e : extraction) :
  last_codes st = None →
  codes (data_extractor (stage_step st e).1) = codes (data_extractor st).
Proof.
  intros Hnone. unfold stage_step. rewrite Hnone.
  pose proof (extract_data_codes (data_extractor st) (files st) (input e)
                (output e) (key_column e) (e_relevant_keys e)) as Hc.
  destruct (extract_data _ _ _ _ _ _) as [[fs self] [c|err]]; done.
Qed.

(** ** C5: reading a line and writing it back *)




(** ** C6: the quoting rule of the writer *)

Lemma occurs_char (c : N) (x : str) : occurs [c] x = contains c x.
Proof.
  induction x as [|b x IH]; [done|].
  simpl. rewrite IH.
  assert (startswith x [] = true) as -> by by destruct x.
  by destruct (c =? b).
Qed.

(** With the default quote character the writer quotes as the
    specification says. *)
Lemma quote_field_default (v : str) : quote_field [DQ] v = quote_field_spec [DQ] v.
Proof. unfold quote_field, quote_field_spec. by rewrite occurs_char. Qed.

(** C6 (the code departs from the claim). [_format_row] wraps with
    [self.quotechar] but tests for the literal double quote. A writer
    configured with the single quote wraps a value that contains a single
    quote, and leaves unwrapped a value that contains a double quote and no
    single quote. *)
Theorem format_row_tests_double_quote :
  let with_single := lit "x'y" in
  let with_double := lit "x" ++ [DQ] ++ lit "y" in
  SimpleDictWriter.quotechar single_quote_writer = lit "'" ∧
  SimpleDictWriter._format_row single_quote_writer {[ lit "a" := with_single ]}
  = Ok (lit "'x'y'") ∧
  quote_field_spec (lit "'") with_single = with_single ∧
  SimpleDictWriter._format_row single_quote_writer {[ lit "a" := with_double ]}
  = Ok with_double ∧
  quote_field_spec (lit "'") with_double = lit "'" ++ with_double ++ lit "'".
Proof. by_evaluation. Qed.

(** ** C7: short and long lines *)

(** C7. Whenever the line splits into [values], [_parse_row] returns a
    record and raises nothing. The record has exactly the fields named by
    the first [length values] entries of the schema; a field holds the value
    at its own position (among the paired positions the last one wins when a
    name is repeated, as in any dict). For a line shorter than the schema
    that is the record of the first fields paired with the values, the
    trailing fields being absent; for a longer line the values beyond the
    schema are dropped. *)
Theorem parse_row_lenient (self : SimpleDictReader.t) (row : str) (values : list str) :
  split (SimpleDictReader.delimiter self) (rstrip_nl row) = Ok values →
  let fieldnames := SimpleDictReader.fieldnames self in
  ∃ record,
    SimpleDictReader._parse_row self row = Ok record ∧
    (∀ field, is_Some (record !! field)
              ↔ field ∈ take (length values) fieldnames) ∧
    (∀ i field v,
       fieldnames !! i = Some field → values !! i = Some v →
       (∀ j, (i < j)%nat → (j < length values)%nat → fieldnames !! j ≠ Some field) →
       record !! field = Some v) ∧
    ((length values < length fieldnames)%nat →
     record = dict (zip (take (length values) fieldnames) values) ∧
     ∀ i field, fieldnames !! i = Some field → (length values ≤ i)%nat →
                field ∉ take (length values) fieldnames →
                record !! field = None) ∧
    ((length fieldnames < length values)%nat →
     record = dict (zip fieldnames (take (length fieldnames) values))).
Proof.
  intros Hsplit fieldnames.
  exists (dict (zip fieldnames values)). split; [|split; [|split; [|split]]].
  - unfold SimpleDictReader._parse_row. by rewrite Hsplit.
  - intros field. apply dict_zip_dom.
  - intros i field v. apply dict_zip_lookup.
  - intros _. split; [by rewrite <- zip_take_keys|].
    intros i field _ _ Hnot. apply eq_None_not_Some.
    by rewrite dict_zip_dom.
  - intros _. by rewrite <- zip_take_values.
Qed.

(** Scenario C: the line [1] under the header [id,name]. *)
Lemma parse_row_lenient_short :
  ∃ record,
    SimpleDictReader._parse_row (SimpleDictReader.new [lit "id"; lit "name"])
      (ln "1") = Ok record ∧
    (∀ field, is_Some (record !! field) ↔ field ∈ take 1 [lit "id"; lit "name"]) ∧
    (∀ i field v,
       [lit "id"; lit "name"] !! i = Some field → [lit "1"] !! i = Some v →
       (∀ j, (i < j)%nat → (j < 1)%nat → [lit "id"; lit "name"] !! j ≠ Some field) →
       record !! field = Some v) ∧
    ((1 < 2)%nat →
     record = dict (zip (take 1 [lit "id"; lit "name"]) [lit "1"]) ∧
     ∀ i field, [lit "id"; lit "name"] !! i = Some field → (1 ≤ i)%nat →
                field ∉ take 1 [lit "id"; lit "name"] →
                record !! field = None) ∧
    ((2 < 1)%nat →
     record = dict (zip [lit "id"; lit "name"] (take 2 [lit "1"]))).
Proof.
  apply (parse_row_lenient (SimpleDictReader.new [lit "id"; lit "name"])
           (ln "1") [lit "1"]).
  by vm_compute.
Defined.

Example parse_row_short_record :
  SimpleDictReader._parse_row (SimpleDictReader.new [lit "id"; lit "name"]) (ln "1")
  = Ok {[ lit "id" := lit "1" ]}.
Proof. by vm_compute. Qed.

Example parse_row_long_record :
  SimpleDictReader._parse_row (SimpleDictReader.new [lit "id"; lit "name"])
    (ln "1,alice,extra")
  = Ok {[ lit "id" := lit "1"; lit "name" := lit "alice" ]}.
Proof. by vm_compute. Qed.

(** ** C8: the harvest map *)

Lemma dict_truthy_lookup {V : Type} (d : gmap str V) (k : str) :
  is_Some (d !! k) → dict_truthy d = true.
Proof.
  intros Hk. unfold dict_truthy. rewrite bool_decide_eq_false_2; [done|].
  intros Hdom. apply elem_of_dom in Hk. rewrite Hdom in Hk.
  by apply elem_of_empty in Hk.
Qed.

Lemma occurrences_absent (field : str) (fields : list str) :
  field ∉ fields → occurrences field fields = 0%nat.
Proof.
  induction fields as [|f fields IH]; intros Hnot; [done|].
  rewrite occurrences_cons. apply not_elem_of_cons in Hnot as [Hne Hnot].
  rewrite decide_False by done. by apply IH.
Qed.

Lemma occurrences_NoDup (field : str) (fields : list str) :
  NoDup fields → field ∈ fields → occurrences field fields = 1%nat.
Proof.
  induction 1 as [|f fields Hf Hnd IH]; intros Hin.
  - by apply elem_of_nil in Hin.
  - rewrite occurrences_cons. destruct (decide (f = field)) as [->|Hne].
    + by rewrite occurrences_absent.
    + apply elem_of_cons in Hin as [->|Hin]; [done|]. by apply IH.
Qed.

(** C8, the claim as stated fails: the stage declares the field [region]
    twice, and each matching record then contributes its region twice. *)
Lemma harvest_repeated_field :
  let fields := [lit "region"; lit "region"] in
  let r := extract_data extractor_1 regions_fs
             (lit "in.csv") (lit "out.csv") (lit "id") (Some fields) in
  list_truthy (Some fields) = true ∧
  r.2 = Ok (Some {[ lit "region" :=
                      [lit "north"; lit "north"; lit "east"; lit "east"] ]}) ∧
  harvested (lit "region") 1 (matching (lit "id") [lit "1"] (records_of regions_csv))
  = [lit "north"; lit "east"].
Proof. by_evaluation. Qed.

(** C8 (amended). For a stage that declares relevant keys and passes its
    input without raising, [extract_data] returns a harvest map whose keys
    are the declared field names; a declared field holds the values of that
    field in the matching records that have it, in input order and with
    repeated values kept, each value once per occurrence of the field name in
    the declared list. With pairwise distinct declared names these are
    exactly the values of the matching records. *)
Theorem harvest_map (self : DataExtractor) (fs : filesystem)
    (input_file output_file key_column : str) (fields : list str)
    (members : list str) (content : str) :
  fs !! input_file = Some content →
  input_file ≠ output_file →
  codes self = Some members →
  Forall (writable (header_of content) members key_column) (records_of content) →
  fields ≠ [] →
  let rows := matching key_column members (records_of content) in
  ∃ h,
    (extract_data self fs input_file output_file key_column (Some fields)).2
    = Ok (Some h) ∧
    (∀ field, field ∈ fields →
       h !! field = Some (harvested field (occurrences field fields) rows)) ∧
    (∀ field, field ∉ fields → h !! field = None) ∧
    (NoDup fields →
     ∀ field, field ∈ fields → h !! field = Some (harvested field 1 rows)).
Proof.
  intros Hin Hne Hcodes Hall Hfields rows.
  rewrite (extract_data_writable self fs input_file output_file key_column
             (Some fields) members content Hin Hne Hcodes Hall).
  assert (list_truthy (Some fields) = true) as Ht by by destruct fields.
  rewrite Ht. change (default [] (Some fields)) with fields. cbn [snd].
  fold rows. set (h := harvest_after fields rows _).
  assert (∀ field, field ∈ fields →
            h !! field = Some (harvested field (occurrences field fields) rows))
    as Hdeclared.
  { intros field Hfield. unfold h. rewrite harvest_after_lookup.
    rewrite dict_comprehension_lookup. by rewrite decide_True. }
  exists h. split; [|split; [done|split]].
  - destruct fields as [|field fields']; [done|].
    rewrite (dict_truthy_lookup h field); [done|].
    rewrite Hdeclared; [by eexists|by left].
  - intros field Hfield. unfold h. rewrite harvest_after_lookup.
    rewrite dict_comprehension_lookup. by rewrite decide_False.
  - intros Hnd field Hfield. rewrite Hdeclared by done.
    by rewrite occurrences_NoDup.
Qed.

(** Scenario B, first stage: the regions of the matching rows. *)
Lemma harvest_map_regions :
  ∃ h,
    (extract_data extractor_1 regions_fs (lit "in.csv") (lit "out.csv") (lit "id")
       (Some [lit "region"])).2 = Ok (Some h) ∧
    (∀ field, field ∈ [lit "region"] →
       h !! field
       = Some (harvested field (occurrences field [lit "region"])
                 (matching (lit "id") [lit "1"] (records_of regions_csv)))) ∧
    (∀ field, field ∉ [lit "region"] → h !! field = None) ∧
    (NoDup [lit "region"] →
     ∀ field, field ∈ [lit "region"] →
       h !! field
       = Some (harvested field 1
                 (matching (lit "id") [lit "1"] (records_of regions_csv)))).
Proof.
  apply (harvest_map extractor_1 regions_fs (lit "in.csv") (lit "out.csv")
           (lit "id") [lit "region"] [lit "1"] regions_csv).
  - by vm_compute.
  - by vm_compute.
  - reflexivity.
  - apply Forall_forall. intros row Hrow. split.
    + revert row Hrow. apply Forall_forall.
      decide_by_evaluation.
    + intros _ field Hfield. revert field Hfield. apply Forall_forall.
      revert row Hrow. apply Forall_forall.
      decide_by_evaluation.
  - done.
Defined.

Example harvest_map_regions_values :
  harvested (lit "region") 1 (matching (lit "id") [lit "1"] (records_of regions_csv))
  = [lit "north"; lit "east"].
Proof. by vm_compute. Qed.

(** ** C9: a key column the previous stage did not harvest *)

(** [extract_data] when [self.codes] is [None]: the header row is written,
    and the first record, if there is one, raises. *)
Lemma extract_data_no_codes (self : DataExtractor) (fs : filesystem)
    (input_file output_file key_column : str)
    (record_relevant_keys : option (list str)) (content : str) :
  fs !! input_file = Some content → input_file ≠ output_file →
  codes self = None →
  let r := extract_data self fs input_file output_file key_column
             record_relevant_keys in
  r.1.1 = <[output_file := header_line (header_of content)]> fs ∧
  match records_of content with
  | [] => is_Ok r.2
  | row :: _ =>
      r.2 = Raise (if decide (is_Some (row !! key_column))
                   then TypeError else KeyError key_column)
  end.
Proof.
  intros Hin Hne Hcodes. cbv zeta.
  unfold extract_data. rewrite Hin.
  rewrite lookup_insert_ne by done. rewrite Hin. simpl default.
  unfold records_of, header_of.
  destruct (readline (lines_of false content)) as [first rest] eqn:Hrl.
  cbn [fst snd split].
  set (header := split_go [COMMA] 0 (strip first)).
  rewrite header_row_written. rewrite Hcodes.
  destruct rest as [|line rest].
  - simpl. rewrite insert_insert_eq. split; [done|]. by eexists.
  - rewrite fmap_cons. cbn [rows_loop].
    destruct (decide (is_Some (record_of header line !! key_column))) as [Hsome|Hnone].
    + rewrite row_step_no_codes by done. simpl. by rewrite insert_insert_eq.
    + rewrite row_step_missing_key by by apply eq_None_not_Some.
      simpl. by rewrite insert_insert_eq.
Qed.

(** C9, the claim as stated fails: in this run the first stage returns a
    harvest map with the key [region] only, the second stage filters on
    [city], and [process_extraction_info] returns without any error. *)
Lemma unharvested_key_is_silent :
  let start := mkRun empty_chain_fs
                 (mkDataExtractor (lit "sample.csv") (Some [lit "1"]) ∅) None in
  let first := stage_step start stage_region_only in
  __init__ (lit "sample.csv") (lit "id") true
    (Some (input <$> extraction_info unharvested_key)) empty_chain_fs
  = (empty_chain_fs, Ok (data_extractor start)) ∧
  first.2 = Ok tt ∧
  last_codes first.1 = Some {[ lit "region" := [] ]} ∧
  ({[ lit "region" := [] ]} : gmap str (list str)) !! key_column stage_city = None ∧
  (process_extraction_info unharvested_key empty_chain_fs).2 = Ok tt.
Proof. by_evaluation. Qed.

(** C9 (amended). When the harvest map returned by the previous stage lacks
    the key column of the stage, the loop raises no error of its own: it sets
    the extractor's codes to [None] and runs the stage. The stage writes the
    header row; if its input has a record, the first record raises
    ([TypeError] from the membership test, [KeyError] if that record lacks
    the key column), and otherwise the stage returns with the header row as
    its whole output. *)
Theorem unharvested_key_column (st : run_state) (e : extraction)
    (h : gmap str (list str)) (content : str) :
  last_codes st = Some h →
  dict_truthy h = true →
  h !! key_column e = None →
  files st !! input e = Some content →
  input e ≠ output e →
  let r := stage_step st e in
  codes (data_extractor r.1) = None ∧
  files r.1 !! output e = Some (header_line (header_of content)) ∧
  r.2 = match records_of content with
        | [] => Ok tt
        | row :: _ =>
            Raise (if decide (is_Some (row !! key_column e))
                   then TypeError else KeyError (key_column e))
        end.
Proof.
  intros Hlast Htruthy Hkey Hin Hne. cbv zeta.
  unfold stage_step. rewrite Hlast, Htruthy, Hkey.
  set (self := set_codes None (data_extractor st)).
  pose proof (extract_data_codes self (files st) (input e) (output e)
                (key_column e) (e_relevant_keys e)) as Hc.
  destruct (extract_data_no_codes self (files st) (input e) (output e)
              (key_column e) (e_relevant_keys e) content Hin Hne eq_refl)
    as [Hfs Hr].
  destruct (extract_data self (files st) (input e) (output e) (key_column e)
              (e_relevant_keys e)) as [[fs' self'] res].
  simpl in Hc, Hfs, Hr. subst fs'.
  destruct (records_of content) as [|row rows].
  - destruct Hr as [c ->]. simpl. by rewrite lookup_insert_eq.
  - rewrite Hr. simpl. by rewrite lookup_insert_eq.
Qed.

(** After [stage_region_only], a stage filtering on [x] stops with
    [TypeError] at the first record of [b.csv]. *)
Lemma unharvested_key_column_x :
  let r := stage_step after_region_stage stage_x in
  codes (data_extractor r.1) = None ∧
  files r.1 !! lit "b_out.csv"
  = Some (header_line (header_of (ln "region,x" ++ ln "north,5" ++ ln "south,6"))) ∧
  r.2 = match records_of (ln "region,x" ++ ln "north,5" ++ ln "south,6") with
        | [] => Ok tt
        | row :: _ =>
            Raise (if decide (is_Some (row !! lit "x"))
                   then TypeError else KeyError (lit "x"))
        end.
Proof.
  apply (unharvested_key_column after_region_stage stage_x
           {[ lit "region" := [lit "north"] ]}
           (ln "region,x" ++ ln "north,5" ++ ln "south,6")).
  - by vm_compute.
  - by vm_compute.
  - by vm_compute.
  - by vm_compute.
  - by vm_compute.
Defined.

Example unharvested_key_column_x_result :
  (stage_step after_region_stage stage_x).2 = Raise TypeError.
Proof. by vm_compute. Qed.

(** ** C10: read_codes *)

Lemma read_codes_file_unused (sample key_column : str) (file : option str)
    (fs : filesystem) :
  read_codes sample key_column file fs = read_codes sample key_column None fs.
Proof. reflexivity. Qed.

(** C10. Whatever [file] is given, [read_codes] opens the extractor's sample
    file: its result is the one of [read_codes(key_column, None)], namely the
    values of the key column of the sample file's records in record order,
    repeated values kept. *)
Theorem read_codes_reads_sample (sample key_column f : str) (fs : filesystem)
    (content : str) :
  fs !! sample = Some content →
  (∀ row, row ∈ sample_records content → is_Some (row !! key_column)) →
  read_codes sample key_column (Some f) fs = read_codes sample key_column None fs ∧
  read_codes sample key_column (Some f) fs
  = Ok ((fun row => row !!! key_column) <$> sample_records content).
Proof.
  intros Hsample Hkey. split; [apply read_codes_file_unused|].
  unfold read_codes, sample_records in *. rewrite Hsample.
  destruct (readline (lines_of true content)) as [first rest].
  cbn [fst snd split mbind result_bind] in *.
  set (header := split_go [COMMA] 0 (strip first)) in *.
  rewrite (comprehension_total _
             (fun line => record_of header line !!! key_column)).
  - by rewrite <- list_fmap_compose.
  - intros line Hline. rewrite parse_row_default. simpl.
    destruct (Hkey (record_of header line)) as [v Hv].
    { apply list_elem_of_fmap. by exists line. }
    unfold getitem. rewrite Hv. by rewrite (lookup_total_correct _ _ _ Hv).
Qed.

(** Asked for [other.csv], [read_codes] still returns the codes of
    [sample.csv], the code [1] twice. *)
Lemma read_codes_reads_sample_other :
  read_codes (lit "sample.csv") (lit "id") (Some (lit "other.csv")) sample_fs
  = read_codes (lit "sample.csv") (lit "id") None sample_fs ∧
  read_codes (lit "sample.csv") (lit "id") (Some (lit "other.csv")) sample_fs
  = Ok ((fun row => row !!! lit "id") <$> sample_records sample_csv).
Proof.
  apply (read_codes_reads_sample (lit "sample.csv") (lit "id") (lit "other.csv")
           sample_fs sample_csv).
  - by vm_compute.
  - apply Forall_forall. decide_by_evaluation.
Defined.

Example read_codes_sample_values :
  read_codes (lit "sample.csv") (lit "id") (Some (lit "other.csv")) sample_fs
  = Ok [lit "1"; lit "1"; lit "2"].
Proof. by vm_compute. Qed.

(** * Further properties of the code *)

(** ** preprocess_data and the constructor *)

Lemma preprocess_file_empty (fs : filesystem) (file : str) :
  fs !! file = Some [] → preprocess_file fs file = Ok fs.
Proof.
  intros Hfile. unfold preprocess_file. rewrite Hfile. simpl.
  by rewrite insert_id.
Qed.

Lemma preprocess_file_failure (fs : filesystem) (file : str) :
  fs !! file ≠ Some [] →
  preprocess_file fs file
  = Raise (match fs !! file with
           | None => FileNotFoundError file
           | Some _ => ValueError
           end).
Proof.
  intros Hfile. destruct (fs !! file) as [content|] eqn:Hlookup.
  - apply (preprocess_file_raises fs file content Hlookup). congruence.
  - unfold preprocess_file. by rewrite Hlookup.
Qed.

Lemma preprocess_data_ok_iff (files : list str) (fs : filesystem) :
  (preprocess_data files fs).2 = Ok tt
  ↔ Forall (fun file => fs !! file = Some []) files.
Proof.
  induction files as [|file files IH]; simpl.
  - split; [constructor|done].
  - destruct (decide (fs !! file = Some [])) as [Hempty|Hnot].
    + rewrite (preprocess_file_empty fs file Hempty). rewrite IH.
      split; [by constructor|by inversion 1].
    + rewrite (preprocess_file_failure fs file Hnot). simpl.
      split; [by destruct (fs !! file)|by inversion 1].
Qed.

Lemma preprocess_data_stops (before : list str) (file : str)
    (after : list str) (fs : filesystem) :
  Forall (fun f => fs !! f = Some []) before →
  fs !! file ≠ Some [] →
  preprocess_data (before ++ file :: after) fs
  = (fs, Raise (match fs !! file with
                | None => FileNotFoundError file
                | Some _ => ValueError
                end)).
Proof.
  intros Hbefore Hfile.
  induction Hbefore as [|f before Hf Hbefore IH]; simpl.
  - by rewrite (preprocess_file_failure fs file Hfile).
  - by rewrite (preprocess_file_empty fs f Hf).
Qed.

(** X1. [preprocess_data] returns without raising exactly when every listed
    file exists and has no line at all; in every case it leaves the files as
    they were. *)
Theorem preprocess_data_returns_iff_empty (files : list str) (fs : filesystem) :
  (preprocess_data files fs).1 = fs ∧
  ((preprocess_data files fs).2 = Ok tt
   ↔ Forall (fun file => fs !! file = Some []) files).
Proof.
  split; [apply preprocess_data_unchanged|apply preprocess_data_ok_iff].
Qed.

(** X2. The first listed file that is missing or not empty stops
    [preprocess_data]: a missing file with [FileNotFoundError], a file with
    at least one line with [ValueError] (from [str.maketrans]); the files
    after it are not opened and no file is changed. *)
Theorem preprocess_data_first_failure (before : list str) (file : str)
    (after : list str) (fs : filesystem) :
  Forall (fun f => fs !! f = Some []) before →
  fs !! file ≠ Some [] →
  preprocess_data (before ++ file :: after) fs
  = (fs, Raise (match fs !! file with
                | None => FileNotFoundError file
                | Some _ => ValueError
                end)).
Proof. apply preprocess_data_stops. Qed.

Lemma preprocess_data_first_failure_people :
  preprocess_data ([lit "a.csv"] ++ lit "in.csv" :: [lit "b.csv"])
    (<[lit "a.csv" := []]> people_fs)
  = (<[lit "a.csv" := []]> people_fs,
     Raise (match <[lit "a.csv" := []]> people_fs !! lit "in.csv" with
            | None => FileNotFoundError (lit "in.csv")
            | Some _ => ValueError
            end)).
Proof.
  apply (preprocess_data_first_failure [lit "a.csv"] (lit "in.csv") [lit "b.csv"]
           (<[lit "a.csv" := []]> people_fs)).
  - repeat constructor.
  - by vm_compute.
Defined.



(** ** process_extraction_info stops in the constructor *)

(** X4. When the first stage input that is missing or not empty is reached
    by the preprocessing of the constructor, [process_extraction_info] raises
    there ([FileNotFoundError] for a missing input, [ValueError] for an input
    with at least one line): the sample file is not read, no stage runs and no
    file is created or changed. *)
Theorem process_extraction_info_stops_early (data : extraction_file)
    (before : list extraction) (e : extraction) (after : list extraction)
    (fs : filesystem) :
  extraction_info data = before ++ e :: after →
  Forall (fun e' => fs !! input e' = Some []) before →
  fs !! input e ≠ Some [] →
  process_extraction_info data fs
  = (fs, Raise (match fs !! input e with
                | None => FileNotFoundError (input e)
                | Some _ => ValueError
                end)).
Proof.
  intros Hinfo Hbefore He. unfold process_extraction_info, __init__.
  destruct (main data) as [sample main_key_column].
  rewrite Hinfo, fmap_app, fmap_cons.
  rewrite (preprocess_data_stops (input <$> before) (input e)
             (input <$> after) fs); [done| |done].
  by apply Forall_fmap.
Qed.

Lemma process_extraction_info_stops_early_chain :
  process_extraction_info empty_chain chain_fs
  = (chain_fs, Raise (match chain_fs !! input stage_a with
                      | None => FileNotFoundError (input stage_a)
                      | Some _ => ValueError
                      end)).
Proof.
  apply (process_extraction_info_stops_early empty_chain [] stage_a
           [stage_b; stage_d] chain_fs).
  - reflexivity.
  - constructor.
  - by vm_compute.
Defined.

(** ** read_codes *)

Lemma comprehension_getitem {A : Type} (g : A → gmap str str) (key : str)
    (xs : list A) :
  comprehension (fun x => getitem (g x) key) xs
  = if decide (Forall (fun x => is_Some (g x !! key)) xs)
    then Ok ((fun x => g x !!! key) <$> xs)
    else Raise (KeyError key).
Proof.
  induction xs as [|x xs IH].
  - reflexivity.
  - cbn [comprehension]. rewrite IH. unfold getitem.
    destruct (decide (Forall _ (x :: xs))) as [Hall|Hnot].
    + apply Forall_cons in Hall as [[v Hx] Hall].
      rewrite Hx, decide_True by done.
      rewrite fmap_cons, (lookup_total_correct _ _ _ Hx). reflexivity.
    + destruct (g x !! key) as [v|] eqn:Hx; [|reflexivity].
      rewrite decide_False; [reflexivity|].
      intros Hall. apply Hnot. constructor; [by rewrite Hx|done].
Qed.

(** X5. [read_codes] raises [FileNotFoundError] when the sample file is
    missing and [KeyError(key_column)] when some record of the sample file
    lacks the key column; otherwise it returns the key values of all records
    in order. The argument [file] plays no part. *)
Theorem read_codes_outcome (sample key_column : str) (file : option str)
    (fs : filesystem) :
  read_codes sample key_column file fs
  = match fs !! sample with
    | None => Raise (FileNotFoundError sample)
    | Some content =>
        if decide (Forall (fun row => is_Some (row !! key_column))
                     (sample_records content))
        then Ok ((fun row => row !!! key_column) <$> sample_records content)
        else Raise (KeyError key_column)
    end.
Proof.
  unfold read_codes, sample_records. destruct (fs !! sample) as [content|]; [|done].
  destruct (readline (lines_of true content)) as [first rest].
  cbn [fst snd split mbind result_bind].
  set (header := split_go [COMMA] 0 (strip first)).
  change (comprehension _ rest)
    with (comprehension (fun line => getitem (record_of header line) key_column) rest).
  rewrite (comprehension_getitem (record_of header) key_column rest).
  destruct (decide (Forall _ rest)) as [Hall|Hnot].
  - rewrite decide_True by by rewrite Forall_fmap.
    rewrite <- list_fmap_compose. reflexivity.
  - rewrite decide_False; [done|]. by rewrite Forall_fmap.
Qed.

(** ** The writer *)

Lemma list_find_cons_eq {A : Type} (P : A → Prop) `{!∀ x, Decision (P x)}
    (x : A) (l : list A) :
  list_find P (x :: l)
  = if decide (P x) then Some (0%nat, x) else prod_map S id <$> list_find P l.
Proof. reflexivity. Qed.

Lemma comprehension_find (row : gmap str str) (g : str → str) (fields : list str) :
  comprehension (fun field => v ← getitem row field; Ok (g v)) fields
  = match list_find (fun field => row !! field = None) fields with
    | Some (_, field) => Raise (KeyError field)
    | None => Ok ((fun field => g (row !!! field)) <$> fields)
    end.
Proof.
  induction fields as [|field fields IH]; [done|].
  cbn [comprehension]. rewrite IH, list_find_cons_eq. unfold getitem.
  destruct (decide (row !! field = None)) as [Hnone|Hsome].
  - by rewrite Hnone.
  - destruct (row !! field) as [v|] eqn:Hfield; [|done].
    destruct (list_find _ fields) as [[i f]|]; [reflexivity|].
    rewrite fmap_cons, (lookup_total_correct _ _ _ Hfield). reflexivity.
Qed.

(** X6. [_format_row] raises [KeyError] for the first field of the schema
    that the row does not have, and nothing else; a row with every field of
    the schema is formatted, whatever other keys it has. *)
Theorem format_row_outcome (self : SimpleDictWriter.t) (row : gmap str str) :
  SimpleDictWriter._format_row self row
  = match list_find (fun field => row !! field = None)
            (SimpleDictWriter.fieldnames self) with
    | Some (_, field) => Raise (KeyError field)
    | None =>
        Ok (join (SimpleDictWriter.delimiter self)
              ((fun field =>
                  quote_field (SimpleDictWriter.quotechar self) (row !!! field))
                 <$> SimpleDictWriter.fieldnames self))
    end.
Proof.
  unfold SimpleDictWriter._format_row.
  rewrite (comprehension_find row
             (fun v => if negb (contains DQ v)
                       then SimpleDictWriter.quotechar self ++ v
                            ++ SimpleDictWriter.quotechar self
                       else v)).
  destruct (list_find _ _) as [[i f]|]; [done|]. simpl. do 2 f_equal.
  apply list_fmap_ext. intros i field _. unfold quote_field.
  by destruct (contains DQ (row !!! field)).
Qed.

(** ** Splitting, joining and stripping *)

Lemma startswith_nil (x : str) : startswith x [] = true.
Proof. by destruct x. Qed.

Lemma startswith_drop (x sep : str) :
  startswith x sep = true → x = sep ++ drop (length sep) x.
Proof.
  revert x. induction sep as [|a sep IH]; intros x Hx; [done|].
  destruct x as [|b x]; [done|]. simpl in Hx.
  apply andb_true_iff in Hx as [Hab Hx]. apply N.eqb_eq in Hab. subst b.
  simpl. f_equal. by apply IH.
Qed.

Lemma startswith_char (d c : N) (x : str) : startswith (c :: x) [d] = (d =? c).
Proof. simpl. by rewrite startswith_nil, andb_true_r. Qed.

Lemma split_go_nonempty (sep : str) (skip : nat) (x : str) :
  split_go sep skip x ≠ [].
Proof.
  revert skip. induction x as [|c x IH]; intros skip; [done|].
  cbn [split_go]. destruct skip as [|k]; [|apply IH].
  destruct (startswith (c :: x) sep); [done|].
  by destruct (split_go sep 0 x).
Qed.

Lemma join_cons (sep x : str) (xs : list str) :
  xs ≠ [] → join sep (x :: xs) = x ++ sep ++ join sep xs.
Proof. by destruct xs. Qed.

Lemma join_push (sep : str) (c : N) (x : str) (xs : list str) :
  join sep ((c :: x) :: xs) = c :: join sep (x :: xs).
Proof. by destruct xs. Qed.

(** Joining what [split] returns gives the string back. *)
Lemma join_split_go (sep : str) (skip : nat) (x : str) :
  sep ≠ [] → join sep (split_go sep skip x) = drop skip x.
Proof.
  intros Hsep. revert skip. induction x as [|c x IH]; intros skip.
  - by destruct skip.
  - cbn [split_go]. destruct skip as [|k]; [|apply IH].
    destruct (startswith (c :: x) sep) eqn:Hstart.
    + rewrite join_cons by apply split_go_nonempty. rewrite IH.
      rewrite drop_0. rewrite (startswith_drop _ _ Hstart) at 1.
      destruct sep as [|a sep]; [done|]. simpl. by rewrite Nat.sub_0_r.
    + specialize (IH 0%nat). rewrite drop_0 in IH. rewrite drop_0.
      destruct (split_go sep 0 x) as [|f fs] eqn:Hsplit.
      * by apply split_go_nonempty in Hsplit.
      * rewrite join_push. by rewrite IH.
Qed.

Lemma split_go_char_free (d : N) (x : str) :
  d ∉ x → split_go [d] 0 x = [x].
Proof.
  induction x as [|c x IH]; intros Hd; [done|].
  apply not_elem_of_cons in Hd as [Hne Hd]. cbn [split_go].
  rewrite startswith_char.
  destruct (d =? c) eqn:Hdc; [by apply N.eqb_eq in Hdc|].
  by rewrite IH.
Qed.

Lemma split_go_char_app (d : N) (x y : str) :
  d ∉ x → split_go [d] 0 (x ++ d :: y) = x :: split_go [d] 0 y.
Proof.
  induction x as [|c x IH]; intros Hd.
  - cbn [app split_go]. by rewrite startswith_char, N.eqb_refl.
  - apply not_elem_of_cons in Hd as [Hne Hd]. cbn [app split_go].
    rewrite startswith_char.
    destruct (d =? c) eqn:Hdc; [by apply N.eqb_eq in Hdc|].
    by rewrite IH.
Qed.

(** Splitting a joined list of separator-free strings gives the list. *)
Lemma split_go_join (d : N) (xs : list str) :
  xs ≠ [] → Forall (fun x => d ∉ x) xs → split_go [d] 0 (join [d] xs) = xs.
Proof.
  intros Hne Hall. induction Hall as [|x xs Hx Hall IH]; [done|].
  destruct xs as [|x' xs].
  - simpl. by apply split_go_char_free.
  - rewrite join_cons by done.
    change ([d] ++ join [d] (x' :: xs)) with (d :: join [d] (x' :: xs)).
    rewrite split_go_char_app by done. by rewrite IH.
Qed.

Lemma elem_of_join (c : N) (sep : str) (xs : list str) :
  c ∈ join sep xs → c ∈ sep ∨ ∃ x, x ∈ xs ∧ c ∈ x.
Proof.
  induction xs as [|x xs IH]; intros Hc.
  - by apply elem_of_nil in Hc.
  - destruct xs as [|x' xs].
    + right. exists x. split; [by left|done].
    + rewrite join_cons in Hc by done.
      apply elem_of_app in Hc as [Hc|Hc].
      { right. exists x. split; [by left|done]. }
      apply elem_of_app in Hc as [Hc|Hc]; [by left|].
      destruct (IH Hc) as [Hsep|(y & Hy & Hcy)]; [by left|].
      right. exists y. split; [by right|done].
Qed.

Lemma lstrip_by_head (p : N → bool) (x : str) :
  (∀ c, head x = Some c → p c = false) → lstrip_by p x = x.
Proof.
  destruct x as [|c x]; [done|]. intros Hhead. simpl.
  by rewrite (Hhead c).
Qed.

Lemma rstrip_nl_free (x : str) : NL ∉ x → rstrip_nl x = x.
Proof.
  intros Hnl. unfold rstrip_nl, rstrip_by.
  rewrite lstrip_by_head; [apply reverse_involutive|].
  intros c Hc. apply N.eqb_neq. intros <-.
  apply Hnl. apply elem_of_reverse. by apply head_Some_elem_of.
Qed.

Lemma rstrip_nl_line (x : str) : NL ∉ x → rstrip_nl (x ++ [NL]) = x.
Proof.
  intros Hnl. rewrite <- (rstrip_nl_free x Hnl) at 2.
  unfold rstrip_nl, rstrip_by. by rewrite reverse_app.
Qed.

(** ** Reading lines *)

(** X7. The reader loses nothing of a line but its trailing newlines: for a
    schema of pairwise distinct names as long as the value list, the values of
    the record in schema order, joined by the delimiter, are the line without
    its trailing newlines. *)
Theorem parse_row_lossless (self : SimpleDictReader.t) (row : str) (values : list str) :
  split (SimpleDictReader.delimiter self) (rstrip_nl row) = Ok values →
  NoDup (SimpleDictReader.fieldnames self) →
  length values = length (SimpleDictReader.fieldnames self) →
  ∃ record,
    SimpleDictReader._parse_row self row = Ok record ∧
    join (SimpleDictReader.delimiter self)
      ((fun field => record !!! field) <$> SimpleDictReader.fieldnames self)
    = rstrip_nl row.
Proof.
  intros Hsplit Hnd Hlen.
  exists (dict (zip (SimpleDictReader.fieldnames self) values)). split.
  - unfold SimpleDictReader._parse_row. by rewrite Hsplit.
  - rewrite (dict_zip_readback _ values Hnd Hlen).
    unfold split in Hsplit.
    destruct (SimpleDictReader.delimiter self) as [|d sep] eqn:Hsep; [done|].
    injection Hsplit as <-. by rewrite join_split_go.
Qed.

Lemma parse_row_lossless_alice :
  ∃ record,
    SimpleDictReader._parse_row (SimpleDictReader.new [lit "id"; lit "name"])
      (ln "1,alice") = Ok record ∧
    join [COMMA] ((fun field => record !!! field) <$> [lit "id"; lit "name"])
    = rstrip_nl (ln "1,alice").
Proof.
  apply (parse_row_lossless (SimpleDictReader.new [lit "id"; lit "name"])
           (ln "1,alice") [lit "1"; lit "alice"]).
  - by vm_compute.
  - decide_by_evaluation.
  - reflexivity.
Defined.

(** ** Reading back what the writer wrote *)

Lemma quote_field_quoted (v : str) : contains DQ (quote_field [DQ] v) = true.
Proof.
  unfold quote_field. destruct (contains DQ v) eqn:Hv; [done|].
  reflexivity.
Qed.

Lemma quote_field_again (quotechar v : str) :
  quote_field quotechar (quote_field [DQ] v) = quote_field [DQ] v.
Proof. unfold quote_field at 1. by rewrite quote_field_quoted. Qed.

Lemma elem_of_quote_field (c : N) (v : str) :
  c ∈ quote_field [DQ] v → c = DQ ∨ c ∈ v.
Proof.
  unfold quote_field. destruct (contains DQ v); [by right|].
  intros Hc. apply elem_of_app in Hc as [Hc|Hc].
  { left. by apply list_elem_of_singleton in Hc. }
  apply elem_of_app in Hc as [Hc|Hc]; [by right|].
  left. by apply list_elem_of_singleton in Hc.
Qed.

Section written_rows.
Variable header : list str.
Variable row : gmap str str.
Hypothesis header_nonempty : header ≠ [].
Hypothesis header_distinct : NoDup header.
Hypothesis plain_values :
  ∀ field, field ∈ header →
    ∃ v, row !! field = Some v ∧ (COMMA ∉ v) ∧ (NL ∉ v).

Local Abbreviation written :=
  ((fun field => quote_field [DQ] (row !!! field)) <$> header).

Lemma written_plain (c : N) :
  c ≠ DQ → (c = COMMA ∨ c = NL) → Forall (fun x => c ∉ x) written.
Proof.
  intros Hdq Hc. apply Forall_fmap, Forall_forall. intros field Hfield.
  destruct (plain_values field Hfield) as (v & Hv & Hcomma & Hnl).
  simpl. rewrite (lookup_total_correct _ _ _ Hv). intros Hin.
  apply elem_of_quote_field in Hin as [->|Hin]; [done|].
  by destruct Hc as [->| ->].
Qed.

Lemma parse_written :
  SimpleDictReader._parse_row (SimpleDictReader.new header) (row_line header row)
  = Ok (dict (zip header written)).
Proof.
  rewrite parse_row_default. f_equal. unfold record_of, row_line. do 2 f_equal.
  rewrite rstrip_nl_line.
  - apply split_go_join.
    + by destruct header.
    + apply written_plain; [done|by left].
  - intros Hnl. apply elem_of_join in Hnl as [Hnl|(x & Hx & Hnl)].
    + by apply list_elem_of_singleton in Hnl.
    + assert (Forall (fun x => NL ∉ x) written) as Hall.
      { apply written_plain; [done|by right]. }
      rewrite Forall_forall in Hall. by apply (Hall x).
Qed.

Lemma written_lookup (field : str) :
  field ∈ header →
  dict (zip header written) !! field = Some (quote_field [DQ] (row !!! field)).
Proof.
  intros Hfield. apply list_elem_of_lookup in Hfield as [i Hi].
  apply (dict_zip_lookup header written i); [done| |].
  - by rewrite list_lookup_fmap, Hi.
  - intros j Hij _ Hj. apply (NoDup_lookup _ _ _ _ header_distinct Hi) in Hj. lia.
Qed.
End written_rows.

(** X8. The reader does not undo the writer's quoting. For a non-empty
    header of pairwise distinct names and a row whose values hold no comma and
    no newline, parsing the line that [writerow] writes gives a record with
    the fields of the header and nothing else, each value as the writer
    quoted it. *)
Theorem parse_row_of_written (header : list str) (row : gmap str str) (file : str) :
  header ≠ [] →
  NoDup header →
  (∀ field, field ∈ header → ∃ v, row !! field = Some v ∧ (COMMA ∉ v) ∧ (NL ∉ v)) →
  SimpleDictWriter.writerow (SimpleDictWriter.new header) file row
  = Ok (file ++ row_line header row) ∧
  ∃ record,
    SimpleDictReader._parse_row (SimpleDictReader.new header) (row_line header row)
    = Ok record ∧
    (∀ field, field ∈ header →
       record !! field = Some (quote_field [DQ] (row !!! field))) ∧
    (∀ field, field ∉ header → record !! field = None).
Proof.
  intros Hne Hnd Hplain. split.
  - rewrite writerow_total; [done|]. intros field Hfield.
    destruct (Hplain field Hfield) as (v & -> & _). by eexists.
  - eexists. split; [by apply parse_written|]. split.
    + intros field Hfield. by apply written_lookup.
    + intros field Hfield. apply eq_None_not_Some. rewrite dict_zip_dom.
      rewrite length_fmap, firstn_all. done.
Qed.

Lemma parse_row_of_written_alice :
  SimpleDictWriter.writerow (SimpleDictWriter.new [lit "id"; lit "name"]) []
    {[ lit "id" := lit "1"; lit "name" := lit "alice" ]}
  = Ok ([] ++ row_line [lit "id"; lit "name"]
                {[ lit "id" := lit "1"; lit "name" := lit "alice" ]}) ∧
  ∃ record,
    SimpleDictReader._parse_row (SimpleDictReader.new [lit "id"; lit "name"])
      (row_line [lit "id"; lit "name"]
         {[ lit "id" := lit "1"; lit "name" := lit "alice" ]})
    = Ok record ∧
    (∀ field, field ∈ [lit "id"; lit "name"] →
       record !! field
       = Some (quote_field [DQ]
                 (({[ lit "id" := lit "1"; lit "name" := lit "alice" ]}
                   : gmap str str) !!! field))) ∧
    (∀ field, field ∉ [lit "id"; lit "name"] → record !! field = None).
Proof.
  apply (parse_row_of_written [lit "id"; lit "name"]
           {[ lit "id" := lit "1"; lit "name" := lit "alice" ]} []).
  - done.
  - decide_by_evaluation.
  - apply Forall_forall. repeat constructor.
    + exists (lit "1"). split; [by vm_compute|]. split; decide_by_evaluation.
    + exists (lit "alice"). split; [by vm_compute|]. split; decide_by_evaluation.
Defined.

(** X9. Writing is idempotent on what was read back: under the same
    conditions, the record parsed from a written line is written as that very
    line again; the quotes are not doubled. *)
Theorem rewrite_of_written (header : list str) (row : gmap str str) (file : str) :
  header ≠ [] →
  NoDup header →
  (∀ field, field ∈ header → ∃ v, row !! field = Some v ∧ (COMMA ∉ v) ∧ (NL ∉ v)) →
  ∃ record,
    SimpleDictReader._parse_row (SimpleDictReader.new header) (row_line header row)
    = Ok record ∧
    SimpleDictWriter.writerow (SimpleDictWriter.new header) file record
    = Ok (file ++ row_line header row).
Proof.
  intros Hne Hnd Hplain. eexists. split; [by apply parse_written|].
  rewrite writerow_total.
  - simpl. unfold row_line. do 4 f_equal.
    apply list_fmap_ext. intros i field Hfield.
    apply list_elem_of_lookup_2 in Hfield.
    rewrite (lookup_total_correct _ _ _
               (written_lookup header row Hnd field Hfield)).
    apply quote_field_again.
  - simpl. intros field Hfield.
    rewrite (written_lookup header row Hnd field Hfield). by eexists.
Qed.

Lemma rewrite_of_written_alice :
  ∃ record,
    SimpleDictReader._parse_row (SimpleDictReader.new [lit "id"; lit "name"])
      (row_line [lit "id"; lit "name"]
         {[ lit "id" := lit "1"; lit "name" := lit "alice" ]})
    = Ok record ∧
    SimpleDictWriter.writerow (SimpleDictWriter.new [lit "id"; lit "name"])
      (header_line [lit "id"; lit "name"]) record
    = Ok (header_line [lit "id"; lit "name"]
          ++ row_line [lit "id"; lit "name"]
               {[ lit "id" := lit "1"; lit "name" := lit "alice" ]}).
Proof.
  apply (rewrite_of_written [lit "id"; lit "name"]
           {[ lit "id" := lit "1"; lit "name" := lit "alice" ]}
           (header_line [lit "id"; lit "name"])).
  - done.
  - decide_by_evaluation.
  - apply Forall_forall. repeat constructor.
    + exists (lit "1"). split; [by vm_compute|]. split; decide_by_evaluation.
    + exists (lit "alice"). split; [by vm_compute|]. split; decide_by_evaluation.
Defined.

(** ** What a stage changes *)

(** [extract_data] once the input file is found. The reader sees the input
    as it is after the output file has been opened. *)
Lemma extract_data_unfold (self : DataExtractor) (fs : filesystem)
    (input_file output_file key_column : str)
    (record_relevant_keys : option (list str)) (content0 : str) :
  fs !! input_file = Some content0 →
  let content := if decide (input_file = output_file) then [] else content0 in
  let header := header_of content in
  let loop :=
    rows_loop (SimpleDictReader.new header) (SimpleDictWriter.new header)
      (codes self) key_column record_relevant_keys
      (readline (lines_of false content)).2
      (mkLoop (header_line header)
         (if list_truthy record_relevant_keys
          then dict ((fun key => (key, [])) <$> default [] record_relevant_keys)
          else relevant_keys self)) in
  extract_data self fs input_file output_file key_column record_relevant_keys
  = ((<[output_file := outfile loop.1]> fs,
      set_relevant_keys (harvest loop.1) self),
     match loop.2 with
     | Raise e => Raise e
     | Ok _ => Ok (if dict_truthy (harvest loop.1)
                   then Some (harvest loop.1) else None)
     end).
Proof.
  intros Hin. cbv zeta. unfold extract_data. rewrite Hin.
  assert (default [] (<[output_file := []]> fs !! input_file)
          = if decide (input_file = output_file) then [] else content0) as ->.
  { destruct (decide (input_file = output_file)) as [->|Hne].
    - by rewrite lookup_insert_eq.
    - rewrite lookup_insert_ne by done. by rewrite Hin. }
  set (content := if decide (input_file = output_file) then [] else content0).
  unfold header_of.
  destruct (readline (lines_of false content)) as [first rest].
  cbn [fst snd split].
  rewrite header_row_written.
  destruct (rows_loop _ _ _ _ _ rest _) as [st [[]|e]]; simpl;
    by rewrite insert_insert_eq.
Qed.

Lemma row_step_shape (reader : SimpleDictReader.t) (writer : SimpleDictWriter.t)
    (codes : option (list str)) (key_column : str)
    (record_relevant_keys : option (list str)) (st : loop_state) (line : str) :
  let st' := (row_step reader writer codes key_column record_relevant_keys st line).1 in
  (∃ tail, outfile st' = outfile st ++ tail) ∧
  (list_truthy record_relevant_keys = false → harvest st' = harvest st).
Proof.
  cbv zeta. unfold row_step.
  assert (∃ tail, outfile st = outfile st ++ tail) as Hsame
    by (exists []; by rewrite app_nil_r).
  destruct (SimpleDictReader._parse_row reader line) as [row|e]; [|done].
  destruct (getitem row key_column) as [code|e]; [|done].
  destruct codes as [cs|]; [|done].
  destruct (list_contains code cs); [|done].
  destruct (list_truthy record_relevant_keys) eqn:Ht.
  - destruct (record_keys _ row (harvest st)) as [rk|e]; [|done].
    unfold SimpleDictWriter.writerow.
    destruct (SimpleDictWriter._format_row writer row) as [formatted|e]; simpl.
    + split; [by eexists|done].
    + split; [done|done].
  - unfold SimpleDictWriter.writerow.
    destruct (SimpleDictWriter._format_row writer row) as [formatted|e]; simpl.
    + split; [by eexists|done].
    + split; [done|done].
Qed.

Lemma rows_loop_shape (reader : SimpleDictReader.t) (writer : SimpleDictWriter.t)
    (codes : option (list str)) (key_column : str)
    (record_relevant_keys : option (list str)) (lines : list str) (st : loop_state) :
  let st' := (rows_loop reader writer codes key_column record_relevant_keys lines st).1 in
  (∃ tail, outfile st' = outfile st ++ tail) ∧
  (list_truthy record_relevant_keys = false → harvest st' = harvest st).
Proof.
  cbv zeta. revert st. induction lines as [|line lines IH]; intros st.
  - simpl. split; [|done]. exists []. by rewrite app_nil_r.
  - cbn [rows_loop].
    pose proof (row_step_shape reader writer codes key_column
                  record_relevant_keys st line) as [[tail1 Hout1] Hrk1].
    destruct (row_step _ _ _ _ _ st line) as [st1 [[]|e]]; simpl in *.
    + destruct (IH st1) as [[tail2 Hout2] Hrk2]. split.
      * exists (tail1 ++ tail2). by rewrite Hout2, Hout1, app_assoc.
      * intros Ht. by rewrite Hrk2, Hrk1.
    + split; [by eexists|done].
Qed.

Lemma extract_data_frame (self : DataExtractor) (fs : filesystem)
    (input_file output_file key_column : str)
    (record_relevant_keys : option (list str)) (path : str) :
  path ≠ output_file →
  (extract_data self fs input_file output_file key_column
     record_relevant_keys).1.1 !! path = fs !! path.
Proof.
  intros Hpath.
  destruct (fs !! input_file) as [content0|] eqn:Hin.
  - rewrite (extract_data_unfold _ _ _ _ _ _ _ Hin). simpl.
    by rewrite lookup_insert_ne.
  - unfold extract_data. by rewrite Hin.
Qed.

Lemma extract_data_sample_file (self : DataExtractor) (fs : filesystem)
    (input_file output_file key_column : str)
    (record_relevant_keys : option (list str)) :
  sample_file (extract_data self fs input_file output_file key_column
                 record_relevant_keys).1.2 = sample_file self.
Proof.
  destruct (fs !! input_file) as [content0|] eqn:Hin.
  - by rewrite (extract_data_unfold _ _ _ _ _ _ _ Hin).
  - unfold extract_data. by rewrite Hin.
Qed.

(** X10. A stage never touches a file other than its output, and never
    changes the extractor's codes or sample file, whether it returns or
    raises. *)
Theorem extract_data_touches_output_only (self : DataExtractor) (fs : filesystem)
    (input_file output_file key_column : str)
    (record_relevant_keys : option (list str)) (path : str) :
  path ≠ output_file →
  let r := extract_data self fs input_file output_file key_column
             record_relevant_keys in
  r.1.1 !! path = fs !! path ∧
  codes r.1.2 = codes self ∧
  sample_file r.1.2 = sample_file self.
Proof.
  intros Hpath. cbv zeta. split; [by apply extract_data_frame|].
  split; [apply extract_data_codes|apply extract_data_sample_file].
Qed.

Lemma extract_data_touches_output_only_people :
  let r := extract_data extractor_13 people_fs
             (lit "in.csv") (lit "out.csv") (lit "id") None in
  r.1.1 !! lit "in.csv" = people_fs !! lit "in.csv" ∧
  codes r.1.2 = codes extractor_13 ∧
  sample_file r.1.2 = sample_file extractor_13.
Proof.
  apply (extract_data_touches_output_only extractor_13 people_fs
           (lit "in.csv") (lit "out.csv") (lit "id") None (lit "in.csv")).
  by vm_compute.
Defined.

(** X11. Whenever the input file exists and is not the output file, the
    output file exists after the stage and begins with the quoted header row,
    whether the stage returns or raises part-way. *)
Theorem extract_data_header_first (self : DataExtractor) (fs : filesystem)
    (input_file output_file key_column : str)
    (record_relevant_keys : option (list str)) (content : str) :
  fs !! input_file = Some content →
  input_file ≠ output_file →
  ∃ rest,
    (extract_data self fs input_file output_file key_column
       record_relevant_keys).1.1 !! output_file
    = Some (header_line (header_of content) ++ rest).
Proof.
  intros Hin Hne. rewrite (extract_data_unfold _ _ _ _ _ _ _ Hin).
  rewrite decide_False by done. simpl. rewrite lookup_insert_eq.
  match goal with
  | |- context [rows_loop ?rd ?wr ?c ?k ?r ?l ?st] =>
      destruct (rows_loop_shape rd wr c k r l st) as [[tail Htail] _]
  end.
  exists tail. by rewrite Htail.
Qed.

Lemma extract_data_header_first_short :
  ∃ rest,
    (extract_data extractor_1 short_fs (lit "in.csv") (lit "out.csv")
       (lit "name") None).1.1 !! lit "out.csv"
    = Some (header_line (header_of short_csv) ++ rest).
Proof.
  apply (extract_data_header_first extractor_1 short_fs
           (lit "in.csv") (lit "out.csv") (lit "name") None short_csv).
  - by vm_compute.
  - by vm_compute.
Defined.

(** X12. A stage whose input is also its output loses the file: the file
    is emptied before it is read, so the stage finds no header and no record,
    writes the one line of an empty quoted field and returns, whatever the
    file held and whatever the codes are. *)
Theorem extract_data_in_place (self : DataExtractor) (fs : filesystem)
    (file key_column : str) (record_relevant_keys : option (list str))
    (content : str) :
  fs !! file = Some content →
  let r := extract_data self fs file file key_column record_relevant_keys in
  r.1.1 = <[file := [DQ; DQ; NL]]> fs ∧ is_Ok r.2.
Proof.
  intros Hin. cbv zeta. rewrite (extract_data_unfold _ _ _ _ _ _ _ Hin).
  rewrite decide_True by done. simpl. split; [done|].
  destruct (dict_truthy _); by eexists.
Qed.

Lemma extract_data_in_place_people :
  let r := extract_data extractor_13 people_fs
             (lit "in.csv") (lit "in.csv") (lit "id") None in
  r.1.1 = <[lit "in.csv" := [DQ; DQ; NL]]> people_fs ∧ is_Ok r.2.
Proof.
  apply (extract_data_in_place extractor_13 people_fs (lit "in.csv") (lit "id")
           None people_csv).
  by vm_compute.
Defined.

(** ** Stages that declare no relevant keys *)

Lemma extract_data_relevant_keys_kept (self : DataExtractor) (fs : filesystem)
    (input_file output_file key_column : str)
    (record_relevant_keys : option (list str)) :
  list_truthy record_relevant_keys = false →
  let r := extract_data self fs input_file output_file key_column
             record_relevant_keys in
  relevant_keys r.1.2 = relevant_keys self ∧
  ∀ c, r.2 = Ok c →
       c = if dict_truthy (relevant_keys self)
           then Some (relevant_keys self) else None.
Proof.
  intros Ht. cbv zeta.
  destruct (fs !! input_file) as [content0|] eqn:Hin.
  - rewrite (extract_data_unfold _ _ _ _ _ _ _ Hin). rewrite Ht. simpl.
    match goal with
    | |- context [rows_loop ?rd ?wr ?c ?k ?r ?l ?st] =>
        destruct (rows_loop_shape rd wr c k r l st) as [_ Hrk];
        specialize (Hrk Ht);
        destruct (rows_loop rd wr c k r l st) as [st' [[]|e]]
    end; simpl in *.
    + rewrite Hrk. split; [done|]. by intros c [= <-].
    + by rewrite Hrk.
  - unfold extract_data. rewrite Hin. by simpl.
Qed.


Lemma dict_truthy_empty {V : Type} : dict_truthy (∅ : gmap str V) = false.
Proof. unfold dict_truthy. by rewrite dom_empty_L, bool_decide_eq_true_2. Qed.

Lemma stage_step_without_harvest (st : run_state) (e : extraction) :
  list_truthy (e_relevant_keys e) = false →
  last_codes st = None →
  relevant_keys (data_extractor st) = ∅ →
  let st' := (stage_step st e).1 in
  codes (data_extractor st') = codes (data_extractor st) ∧
  last_codes st' = None ∧
  relevant_keys (data_extractor st') = ∅.
Proof.
  intros Ht Hlast Hrk. cbv zeta. unfold stage_step. rewrite Hlast.
  pose proof (extract_data_codes (data_extractor st) (files st) (input e)
                (output e) (key_column e) (e_relevant_keys e)) as Hcodes.
  destruct (extract_data_relevant_keys_kept (data_extractor st) (files st)
              (input e) (output e) (key_column e) (e_relevant_keys e) Ht)
    as [Hkept Hret].
  destruct (extract_data _ _ _ _ _ _) as [[fs self] [c|err]]; simpl in *.
  - rewrite (Hret c eq_refl), Hrk, dict_truthy_empty. by rewrite Hkept, Hrk.
  - by rewrite Hkept, Hrk.
Qed.

(** X14. In a chain where no stage declares relevant keys, started as
    [process_extraction_info] starts it, every stage filters with the seed
    codes: after any number of stages the codes are unchanged, and no harvest
    map has been passed on. *)
Theorem run_stages_without_harvest (stages : list extraction) (st : run_state) :
  Forall (fun e => list_truthy (e_relevant_keys e) = false) stages →
  last_codes st = None →
  relevant_keys (data_extractor st) = ∅ →
  let st' := (run_stages stages st).1 in
  codes (data_extractor st') = codes (data_extractor st) ∧
  last_codes st' = None ∧
  relevant_keys (data_extractor st') = ∅.
Proof.
  intros Hall. cbv zeta. revert st.
  induction Hall as [|e stages He Hall IH]; intros st Hlast Hrk; [done|].
  cbn [run_stages].
  destruct (stage_step_without_harvest st e He Hlast Hrk) as (Hc & Hl & Hr).
  destruct (stage_step st e) as [st1 [[]|err]]; simpl in *; [|done].
  destruct (IH st1 Hl Hr) as (Hc' & Hl' & Hr').
  by rewrite Hc', Hc.
Qed.


Lemma run_stages_without_harvest_chain :
  let st' := (run_stages [stage_b; stage_c] chain_start).1 in
  codes (data_extractor st') = codes (data_extractor chain_start) ∧
  last_codes st' = None ∧
  relevant_keys (data_extractor st') = ∅.
Proof.
  apply (run_stages_without_harvest [stage_b; stage_c] chain_start).
  - by repeat constructor.
  - reflexivity.
  - reflexivity.
Defined.

(** ** What the output of a stage depends on *)

Lemma row_step_harvest_free (reader : SimpleDictReader.t)
    (writer : SimpleDictWriter.t) (codes : option (list str)) (key_column : str)
    (record_relevant_keys : option (list str)) (st st2 : loop_state) (line : str) :
  outfile st = outfile st2 →
  (∀ k, k ∈ default [] record_relevant_keys → is_Some (harvest st !! k)) →
  let a := row_step reader writer codes key_column record_relevant_keys st line in
  let b := row_step reader writer codes key_column None st2 line in
  outfile a.1 = outfile b.1 ∧ a.2 = b.2 ∧
  (∀ k, k ∈ default [] record_relevant_keys → is_Some (harvest a.1 !! k)).
Proof.
  intros Hout Hkeys. cbv zeta. unfold row_step.
  destruct (SimpleDictReader._parse_row reader line) as [row|e]; [|done].
  destruct (getitem row key_column) as [code|e]; [|done].
  destruct codes as [cs|]; [|done].
  destruct (list_contains code cs); [|done].
  assert ((if list_truthy record_relevant_keys
           then record_keys (default [] record_relevant_keys) row (harvest st)
           else Ok (harvest st))
          = Ok (harvest_after (default [] record_relevant_keys) [row] (harvest st)))
    as ->.
  { destruct (list_truthy record_relevant_keys) eqn:Ht.
    - by apply record_keys_total.
    - by rewrite (fields_no_harvest _ Ht), harvest_after_no_fields. }
  cbn [list_truthy]. rewrite Hout.
  assert (∀ k, k ∈ default [] record_relevant_keys →
            is_Some (harvest_after (default [] record_relevant_keys) [row]
                       (harvest st) !! k)) as Hkeys'.
  { intros k Hk. rewrite harvest_after_lookup.
    destruct (Hkeys k Hk) as [l ->]. by eexists. }
  destruct (SimpleDictWriter.writerow writer (outfile st2) row) as [out|e]; done.
Qed.

Lemma rows_loop_harvest_free (reader : SimpleDictReader.t)
    (writer : SimpleDictWriter.t) (codes : option (list str)) (key_column : str)
    (record_relevant_keys : option (list str)) (lines : list str)
    (st st2 : loop_state) :
  outfile st = outfile st2 →
  (∀ k, k ∈ default [] record_relevant_keys → is_Some (harvest st !! k)) →
  let a := rows_loop reader writer codes key_column record_relevant_keys lines st in
  let b := rows_loop reader writer codes key_column None lines st2 in
  outfile a.1 = outfile b.1 ∧ a.2 = b.2.
Proof.
  cbv zeta. revert st st2.
  induction lines as [|line lines IH]; intros st st2 Hout Hkeys; [done|].
  cbn [rows_loop].
  destruct (row_step_harvest_free reader writer codes key_column
              record_relevant_keys st st2 line Hout Hkeys) as (Ho & Hr & Hk).
  destruct (row_step _ _ _ _ record_relevant_keys st line) as [st1 r1].
  destruct (row_step _ _ _ _ None st2 line) as [st1' r1'].
  simpl in *. subst r1'. destruct r1 as [[]|e]; [by apply IH|done].
Qed.

(** X15. Declaring relevant keys changes nothing in what a stage writes,
    nor in whether and how it raises: the files after the stage, and the
    exception if any, are those of the same stage without relevant keys. *)
Theorem extract_data_harvest_free (self : DataExtractor) (fs : filesystem)
    (input_file output_file key_column : str)
    (record_relevant_keys : option (list str)) :
  let a := extract_data self fs input_file output_file key_column
             record_relevant_keys in
  let b := extract_data self fs input_file output_file key_column None in
  a.1.1 = b.1.1 ∧ (is_Ok a.2 ↔ is_Ok b.2) ∧ ∀ e, a.2 = Raise e ↔ b.2 = Raise e.
Proof.
  cbv zeta. destruct (fs !! input_file) as [content0|] eqn:Hin.
  - rewrite !(extract_data_unfold _ _ _ _ _ _ _ Hin). cbn [list_truthy default].
    match goal with
    | |- context [rows_loop ?rd ?wr ?c ?k record_relevant_keys ?l ?st] =>
        match goal with
        | |- context [rows_loop rd wr c k None l ?st2] =>
            destruct (rows_loop_harvest_free rd wr c k record_relevant_keys
                        l st st2) as [Hout Hres];
            [done|intros key Hkey; by apply fresh_keys_present|];
            destruct (rows_loop rd wr c k record_relevant_keys l st) as [sa ra];
            destruct (rows_loop rd wr c k None l st2) as [sb rb]
        end
    end.
    simpl in *. subst rb. rewrite Hout. split; [done|].
    destruct ra as [[]|e].
    + split; [split; intros _; by eexists|].
      intros e. split; intros Hx; discriminate Hx.
    + split; [split; intros [x Hx]; discriminate Hx|done].
  - unfold extract_data. rewrite Hin. by simpl.
Qed.

Lemma rows_loop_codes_ext (reader : SimpleDictReader.t)
    (writer : SimpleDictWriter.t) (cs cs' : list str) (key_column : str)
    (record_relevant_keys : option (list str)) (lines : list str)
    (st : loop_state) :
  (∀ code, code ∈ cs ↔ code ∈ cs') →
  rows_loop reader writer (Some cs) key_column record_relevant_keys lines st
  = rows_loop reader writer (Some cs') key_column record_relevant_keys lines st.
Proof.
  intros Hsame. revert st. induction lines as [|line lines IH]; intros st; [done|].
  cbn [rows_loop].
  assert (row_step reader writer (Some cs) key_column record_relevant_keys st line
          = row_step reader writer (Some cs') key_column record_relevant_keys
              st line) as ->.
  { unfold row_step, list_contains.
    destruct (SimpleDictReader._parse_row reader line) as [row|e]; [|done].
    destruct (getitem row key_column) as [code|e]; [|done].
    by rewrite (bool_decide_ext _ _ (Hsame code)). }
  destruct (row_step _ _ _ _ _ st line) as [st1 [[]|e]]; [apply IH|done].
Qed.

(** X16. A stage uses its codes as a set: two lists of codes with the same
    members, in any order and with any repetitions, give the same files, the
    same result and the same relevant keys. *)
Theorem extract_data_codes_as_set (self : DataExtractor) (fs : filesystem)
    (input_file output_file key_column : str)
    (record_relevant_keys : option (list str)) (cs cs' : list str) :
  codes self = Some cs →
  (∀ code, code ∈ cs ↔ code ∈ cs') →
  let a := extract_data self fs input_file output_file key_column
             record_relevant_keys in
  let b := extract_data (set_codes (Some cs') self) fs input_file output_file
             key_column record_relevant_keys in
  a.1.1 = b.1.1 ∧ a.2 = b.2 ∧ relevant_keys a.1.2 = relevant_keys b.1.2.
Proof.
  intros Hcodes Hsame. cbv zeta.
  destruct (fs !! input_file) as [content0|] eqn:Hin.
  - rewrite !(extract_data_unfold _ _ _ _ _ _ _ Hin). rewrite Hcodes. simpl.
    by rewrite (rows_loop_codes_ext _ _ cs cs' _ _ _ _ Hsame).
  - unfold extract_data. rewrite Hin. by simpl.
Qed.

Lemma extract_data_codes_as_set_people :
  let a := extract_data extractor_13 people_fs
             (lit "in.csv") (lit "out.csv") (lit "id") None in
  let b := extract_data (set_codes (Some [lit "3"; lit "1"; lit "3"]) extractor_13)
             people_fs (lit "in.csv") (lit "out.csv") (lit "id") None in
  a.1.1 = b.1.1 ∧ a.2 = b.2 ∧ relevant_keys a.1.2 = relevant_keys b.1.2.
Proof.
  apply (extract_data_codes_as_set extractor_13 people_fs
           (lit "in.csv") (lit "out.csv") (lit "id") None
           [lit "1"; lit "3"] [lit "3"; lit "1"; lit "3"]).
  - reflexivity.
  - intros code. rewrite !elem_of_cons, !elem_of_nil. tauto.
Defined.

(** ** Lines without a comma *)

Lemma elem_of_lstrip_by (p : N → bool) (c : N) (x : str) :
  c ∈ lstrip_by p x → c ∈ x.
Proof.
  induction x as [|b x IH]; [done|]. simpl.
  destruct (p b); [|done]. intros Hc. right. by apply IH.
Qed.

Lemma elem_of_rstrip_nl (c : N) (x : str) : c ∈ rstrip_nl x → c ∈ x.
Proof.
  unfold rstrip_nl, rstrip_by. rewrite elem_of_reverse. intros Hc.
  apply elem_of_lstrip_by in Hc. by apply elem_of_reverse.
Qed.

Lemma record_of_comma_free (first : str) (others : list str) (line : str) :
  COMMA ∉ line →
  record_of (first :: others) line = {[ first := rstrip_nl line ]}.
Proof.
  intros Hcomma. unfold record_of. rewrite split_go_char_free.
  - unfold dict. destruct others; simpl; by rewrite insert_empty.
  - intros Hin. apply Hcomma. by apply elem_of_rstrip_nl.
Qed.

(** X17. Every line of the input without a comma, a blank line among them,
    gives a record that has the first column of the header only. If the key
    column is any other column, a stage over an input with such a line does
    not return: it raises. *)
Theorem extract_data_comma_free_line (self : DataExtractor) (fs : filesystem)
    (input_file output_file key_column : str)
    (record_relevant_keys : option (list str)) (content : str)
    (first : str) (others : list str) (line : str) :
  fs !! input_file = Some content →
  input_file ≠ output_file →
  header_of content = first :: others →
  key_column ≠ first →
  line ∈ (readline (lines_of false content)).2 →
  COMMA ∉ line →
  record_of (header_of content) line = {[ first := rstrip_nl line ]} ∧
  ∃ e, (extract_data self fs input_file output_file key_column
          record_relevant_keys).2 = Raise e.
Proof.
  intros Hin Hne Hheader Hkey Hline Hcomma.
  assert (record_of (header_of content) line = {[ first := rstrip_nl line ]})
    as Hrecord by (rewrite Hheader; by apply record_of_comma_free).
  split; [done|].
  apply (extract_data_missing_key self fs input_file output_file key_column
           record_relevant_keys content Hin Hne).
  apply Exists_exists. exists (record_of (header_of content) line). split.
  - unfold records_of. apply list_elem_of_fmap. by exists line.
  - rewrite Hrecord. by apply lookup_singleton_ne.
Qed.

Lemma extract_data_comma_free_line_short :
  record_of (header_of short_csv) (ln "1") = {[ lit "id" := rstrip_nl (ln "1") ]} ∧
  ∃ e, (extract_data extractor_1 short_fs (lit "in.csv") (lit "out.csv")
          (lit "name") None).2 = Raise e.
Proof.
  apply (extract_data_comma_free_line extractor_1 short_fs
           (lit "in.csv") (lit "out.csv") (lit "name") None short_csv
           (lit "id") [lit "name"] (ln "1")).
  - by vm_compute.
  - by vm_compute.
  - by vm_compute.
  - by vm_compute.
  - decide_by_evaluation.
  - decide_by_evaluation.
Defined.

(** ** What a whole run changes *)

Lemma init_files_unchanged (sample key_column : str) (preprocess_files : bool)
    (files : option (list str)) (fs : filesystem) :
  (__init__ sample key_column preprocess_files files fs).1 = fs.
Proof.
  unfold __init__.
  assert (∀ l, (preprocess_data l fs).1 = fs) as Hpre
    by (intros l; apply preprocess_data_unchanged).
  destruct preprocess_files, files as [l|]; simpl;
    try (specialize (Hpre l); destruct (preprocess_data l fs) as [fs' [[]|e]];
         simpl in Hpre; subst fs'; [|done]);
    by destruct (read_codes sample key_column None fs).
Qed.

Lemma stage_step_frame (st : run_state) (e : extraction) (path : str) :
  path ≠ output e → files (stage_step st e).1 !! path = files st !! path.
Proof.
  intros Hpath. unfold stage_step.
  match goal with
  | |- context [extract_data ?self ?fs ?i ?o ?k ?r] =>
      pose proof (extract_data_frame self fs i o k r path Hpath) as Hframe;
      destruct (extract_data self fs i o k r) as [[fs' self'] [c|err]]
  end; done.
Qed.

Lemma run_stages_frame (stages : list extraction) (st : run_state) (path : str) :
  path ∉ output <$> stages →
  files (run_stages stages st).1 !! path = files st !! path.
Proof.
  revert st. induction stages as [|e stages IH]; intros st Hpath; [done|].
  rewrite fmap_cons in Hpath. apply not_elem_of_cons in Hpath as [Hne Hpath].
  cbn [run_stages].
  pose proof (stage_step_frame st e path Hne) as Hstep.
  destruct (stage_step st e) as [st1 [[]|err]]; simpl in *; [|done].
  by rewrite IH.
Qed.

(** X18. A whole run changes no file other than the output files of its
    stages, whether it returns or raises: the sample file and the inputs
    keep their contents unless a stage names one of them as its output. *)
Theorem process_extraction_info_frame (data : extraction_file) (fs : filesystem)
    (path : str) :
  path ∉ output <$> extraction_info data →
  (process_extraction_info data fs).1 !! path = fs !! path.
Proof.
  intros Hpath. unfold process_extraction_info.
  destruct (main data) as [sample main_key_column].
  pose proof (init_files_unchanged sample main_key_column true
                (Some (input <$> extraction_info data)) fs) as Hinit.
  destruct (__init__ _ _ _ _ fs) as [fs' [self|e]]; simpl in Hinit; subst fs';
    [|done].
  pose proof (run_stages_frame (extraction_info data) (mkRun fs self None)
                path Hpath) as Hrun.
  by destruct (run_stages _ _) as [st r].
Qed.

Lemma process_extraction_info_frame_sample :
  (process_extraction_info empty_chain empty_chain_fs).1 !! lit "sample.csv"
  = empty_chain_fs !! lit "sample.csv".
Proof.
  apply (process_extraction_info_frame empty_chain empty_chain_fs (lit "sample.csv")).
  decide_by_evaluation.
Defined.

(** ** A stage over a file that a stage wrote *)

Lemma lines_of_first_line (translate : bool) (x rest : str) :
  NL ∉ x → CR ∉ x →
  lines_of translate (x ++ NL :: rest) = (x ++ [NL]) :: lines_of translate rest.
Proof.
  induction x as [|c x IH]; intros Hnl Hcr; [done|].
  apply not_elem_of_cons in Hnl as [Hnl1 Hnl].
  apply not_elem_of_cons in Hcr as [Hcr1 Hcr].
  cbn [app lines_of].
  destruct (c =? NL) eqn:Hc1; [by apply N.eqb_eq in Hc1|].
  destruct (c =? CR) eqn:Hc2; [by apply N.eqb_eq in Hc2|].
  by rewrite IH.
Qed.

Lemma join_snoc (sep : str) (xs : list str) (x : str) :
  ∃ before, join sep (xs ++ [x]) = before ++ x.
Proof.
  induction xs as [|y xs [before IH]].
  - by exists [].
  - exists (y ++ sep ++ before). simpl app.
    rewrite join_cons by by destruct xs. rewrite IH.
    by rewrite <- !app_assoc.
Qed.

Lemma rstrip_by_line (p : N → bool) (y : str) (c : N) :
  p NL = true → p c = false → rstrip_by p (y ++ [c; NL]) = y ++ [c].
Proof.
  intros Hnl Hc. unfold rstrip_by.
  rewrite reverse_app. change (reverse [c; NL]) with [NL; c].
  cbn [app lstrip_by]. rewrite Hnl, Hc.
  by rewrite reverse_cons, reverse_involutive.
Qed.

Lemma strip_between (c : N) (x : str) :
  isspace c = false → strip ((c :: x) ++ [c; NL]) = (c :: x) ++ [c].
Proof.
  intros Hc. unfold strip. cbn [app lstrip_by]. rewrite Hc.
  by rewrite app_comm_cons, rstrip_by_line.
Qed.

Lemma contains_absent (c : N) (x : str) : c ∉ x → contains c x = false.
Proof.
  induction x as [|b x IH]; intros Hc; [done|].
  apply not_elem_of_cons in Hc as [Hne Hc]. simpl.
  destruct (c =? b) eqn:Hcb; [by apply N.eqb_eq in Hcb|]. by apply IH.
Qed.

Lemma quote_field_wraps (v : str) :
  DQ ∉ v → quote_field [DQ] v = [DQ] ++ v ++ [DQ].
Proof. intros Hv. unfold quote_field. by rewrite contains_absent. Qed.

Lemma join_wrapped (header : list str) :
  header ≠ [] → (∀ field, field ∈ header → DQ ∉ field) →
  ∃ x, join [COMMA] (quote_field [DQ] <$> header) = (DQ :: x) ++ [DQ].
Proof.
  intros Hne Hplain. destruct header as [|f0 others]; [done|].
  rewrite fmap_cons, (quote_field_wraps f0) by (apply Hplain; by left).
  destruct (decide (others = [])) as [->|Hothers].
  - by exists f0.
  - destruct (exists_last Hothers) as (init & fl & ->).
    rewrite fmap_app. simpl fmap at 2.
    rewrite join_cons by by destruct (_ <$> init).
    destruct (join_snoc [COMMA] (quote_field [DQ] <$> init) (quote_field [DQ] fl))
      as [before ->].
    rewrite (quote_field_wraps fl).
    + exists (f0 ++ [DQ] ++ [COMMA] ++ before ++ [DQ] ++ fl).
      simpl. repeat (rewrite <- app_assoc || rewrite <- app_comm_cons).
      reflexivity.
    + apply Hplain. right. apply elem_of_app. right. by left.
Qed.

Section written_header.
Variable header : list str.
Variable rest : str.
Hypothesis header_nonempty : header ≠ [].
Hypothesis plain_names :
  ∀ field, field ∈ header →
    (DQ ∉ field) ∧ (COMMA ∉ field) ∧ (NL ∉ field) ∧ (CR ∉ field).

Lemma written_names_free (c : N) :
  c ≠ DQ → (c = COMMA ∨ c = NL ∨ c = CR) →
  Forall (fun x => c ∉ x) (quote_field [DQ] <$> header).
Proof.
  intros Hdq Hc. apply Forall_fmap, Forall_forall. intros field Hfield.
  destruct (plain_names field Hfield) as (_ & Hcomma & Hnl & Hcr).
  simpl. intros Hin.
  apply elem_of_quote_field in Hin as [->|Hin]; [done|].
  by destruct Hc as [->|[->| ->]].
Qed.

Lemma written_header_free (c : N) :
  c ≠ DQ → (c = NL ∨ c = CR) →
  c ∉ join [COMMA] (quote_field [DQ] <$> header).
Proof.
  intros Hdq Hc Hin. apply elem_of_join in Hin as [Hin|(x & Hx & Hin)].
  - apply list_elem_of_singleton in Hin. by destruct Hc as [->| ->].
  - assert (Forall (fun x => c ∉ x) (quote_field [DQ] <$> header)) as Hall.
    { apply written_names_free; [done|]. tauto. }
    rewrite Forall_forall in Hall. by apply (Hall x).
Qed.

Lemma lines_of_written_header :
  lines_of false (header_line header ++ rest)
  = header_line header :: lines_of false rest.
Proof.
  unfold header_line. rewrite <- app_assoc. simpl app.
  apply lines_of_first_line; apply written_header_free; by auto.
Qed.

Lemma header_of_written_header :
  header_of (header_line header ++ rest) = quote_field [DQ] <$> header.
Proof.
  unfold header_of. rewrite lines_of_written_header. simpl readline.
  unfold header_line. simpl fst.
  destruct (join_wrapped header header_nonempty) as [x Hx].
  { intros field Hfield. by destruct (plain_names field Hfield). }
  rewrite Hx at 1. rewrite <- app_assoc. simpl app at 2.
  rewrite strip_between by done. rewrite <- Hx.
  apply split_go_join.
  - by destruct header.
  - apply written_names_free; [done|]. tauto.
Qed.
End written_header.

Lemma contains_elem_of (c : N) (x : str) : contains c x = true → c ∈ x.
Proof.
  intros Hc. destruct (decide (c ∈ x)) as [|Hnot]; [done|].
  by rewrite contains_absent in Hc.
Qed.

(** X19. The output of a stage cannot feed a stage that filters on a column
    by its plain name. The header row is written with its names in quotes and
    read back with the quotes kept, so for a file that begins with such a
    header row (names free of quotes, commas and line ends) and goes on with
    at least one more line, a stage whose key column holds no double quote
    raises [KeyError] on the first record and writes the header only. *)
Theorem extract_data_of_written_header (self : DataExtractor) (fs : filesystem)
    (input_file output_file key_column : str)
    (record_relevant_keys : option (list str)) (header : list str) (rest : str) :
  fs !! input_file = Some (header_line header ++ rest) →
  input_file ≠ output_file →
  header ≠ [] →
  (∀ field, field ∈ header →
     (DQ ∉ field) ∧ (COMMA ∉ field) ∧ (NL ∉ field) ∧ (CR ∉ field)) →
  DQ ∉ key_column →
  rest ≠ [] →
  let r := extract_data self fs input_file output_file key_column
             record_relevant_keys in
  header_of (header_line header ++ rest) = quote_field [DQ] <$> header ∧
  r.2 = Raise (KeyError key_column) ∧
  r.1.1 !! output_file = Some (header_line (quote_field [DQ] <$> header)).
Proof.
  intros Hin Hne Hheader Hplain Hkey Hrest. cbv zeta.
  pose proof (header_of_written_header header rest Hheader Hplain) as Hh.
  split; [done|].
  rewrite (extract_data_unfold _ _ _ _ _ _ _ Hin).
  rewrite decide_False by done. rewrite Hh.
  rewrite (lines_of_written_header header rest Hplain). simpl readline.
  cbn [snd].
  destruct (lines_of false rest) as [|line lines] eqn:Hlines.
  { by apply lines_of_nil in Hlines. }
  cbn [rows_loop]. rewrite row_step_missing_key.
  - simpl. by rewrite lookup_insert_eq.
  - apply eq_None_not_Some. unfold record_of. rewrite dict_zip_dom.
    intros Hin'. apply elem_of_take in Hin' as (i & Hi & _).
    apply list_elem_of_lookup_2 in Hi.
    apply list_elem_of_fmap in Hi as (field & -> & _).
    apply Hkey. apply contains_elem_of, quote_field_quoted.
Qed.

Lemma extract_data_of_written_header_people :
  let r := extract_data extractor_13 people_written_fs
             (lit "out.csv") (lit "again.csv") (lit "id") None in
  header_of (header_line [lit "id"; lit "name"] ++ people_written_rows)
  = quote_field [DQ] <$> [lit "id"; lit "name"] ∧
  r.2 = Raise (KeyError (lit "id")) ∧
  r.1.1 !! lit "again.csv"
  = Some (header_line (quote_field [DQ] <$> [lit "id"; lit "name"])).
Proof.
  apply (extract_data_of_written_header extractor_13 people_written_fs
           (lit "out.csv") (lit "again.csv") (lit "id") None
           [lit "id"; lit "name"] people_written_rows).
  - by vm_compute.
  - by vm_compute.
  - done.
  - apply Forall_forall. repeat constructor; decide_by_evaluation.
  - decide_by_evaluation.
  - done.
Defined.

(** ** From one stage to the next *)

Lemma rows_loop_keys_present (reader : SimpleDictReader.t)
    (writer : SimpleDictWriter.t) (codes : option (list str)) (key_column : str)
    (record_relevant_keys : option (list str)) (lines : list str)
    (st : loop_state) :
  (∀ k, k ∈ default [] record_relevant_keys → is_Some (harvest st !! k)) →
  ∀ k, k ∈ default [] record_relevant_keys →
    is_Some (harvest (rows_loop reader writer codes key_column
                        record_relevant_keys lines st).1 !! k).
Proof.
  revert st. induction lines as [|line lines IH]; intros st Hkeys; [done|].
  cbn [rows_loop].
  destruct (row_step_harvest_free reader writer codes key_column
              record_relevant_keys st st line eq_refl Hkeys) as (_ & _ & Hk).
  destruct (row_step _ _ _ _ record_relevant_keys st line) as [st1 [[]|e]];
    [by apply IH|done].
Qed.

(** X20. When a stage that declares relevant keys returns, every declared
    field is a key of the harvest map, also when no record matched; and the
    next stage, if its key column is one of those fields, filters with the
    list harvested under that field. *)
Theorem next_stage_codes (st : run_state) (e e' : extraction) :
  (stage_step st e).2 = Ok tt →
  list_truthy (e_relevant_keys e) = true →
  key_column e' ∈ default [] (e_relevant_keys e) →
  let st1 := (stage_step st e).1 in
  (∀ field, field ∈ default [] (e_relevant_keys e) →
     is_Some (relevant_keys (data_extractor st1) !! field)) ∧
  last_codes st1 = Some (relevant_keys (data_extractor st1)) ∧
  ∃ l, relevant_keys (data_extractor st1) !! key_column e' = Some l ∧
       codes (data_extractor (stage_step st1 e').1) = Some l.
Proof.
  intros Hok Ht Hkey. cbv zeta.
  assert (∀ self fs,
    let r := extract_data self fs (input e) (output e) (key_column e)
               (e_relevant_keys e) in
    ∀ c, r.2 = Ok c →
      (∀ field, field ∈ default [] (e_relevant_keys e) →
         is_Some (relevant_keys r.1.2 !! field)) ∧
      c = Some (relevant_keys r.1.2)) as Hstage.
  { intros self fs. cbv zeta.
    destruct (fs !! input e) as [content0|] eqn:Hin.
    - rewrite (extract_data_unfold _ _ _ _ _ _ _ Hin). simpl.
      match goal with
      | |- context [rows_loop ?rd ?wr ?c ?k ?r ?l ?s] =>
          pose proof (rows_loop_keys_present rd wr c k r l s) as Hkeys;
          destruct (rows_loop rd wr c k r l s) as [s' [[]|err]]
      end; simpl in *; [|done].
      intros c [= <-].
      assert (∀ k, k ∈ default [] (e_relevant_keys e) → is_Some (harvest s' !! k))
        as Hpresent.
      { apply Hkeys. intros k Hk. by apply fresh_keys_present. }
      split; [done|].
      by rewrite (dict_truthy_lookup (harvest s') (key_column e') (Hpresent _ Hkey)).
    - unfold extract_data. rewrite Hin. by simpl. }
  unfold stage_step in Hok |- *.
  match type of Hok with
  | context [extract_data ?self ?fs _ _ _ _] =>
      specialize (Hstage self fs); cbv zeta in Hstage;
      destruct (extract_data self fs (input e) (output e) (key_column e)
                  (e_relevant_keys e)) as [[fs1 self1] [c|err]]
  end; [|done].
  simpl in *. destruct (Hstage c eq_refl) as [Hpresent ->].
  split; [done|]. split; [done|].
  destruct (Hpresent _ Hkey) as [l Hl]. exists l. split; [done|].
  rewrite (dict_truthy_lookup _ _ (Hpresent _ Hkey)), Hl.
  pose proof (extract_data_codes (set_codes (Some l) self1) fs1 (input e')
                (output e') (key_column e') (e_relevant_keys e')) as Hc.
  by destruct (extract_data _ _ _ _ _ _) as [[fs2 self2] [c|err]].
Qed.

Lemma next_stage_codes_chain :
  let st1 := (stage_step chain_start stage_a).1 in
  (∀ field, field ∈ default [] (e_relevant_keys stage_a) →
     is_Some (relevant_keys (data_extractor st1) !! field)) ∧
  last_codes st1 = Some (relevant_keys (data_extractor st1)) ∧
  ∃ l, relevant_keys (data_extractor st1) !! key_column stage_b = Some l ∧
       codes (data_extractor (stage_step st1 stage_b).1) = Some l.
Proof.
  apply (next_stage_codes chain_start stage_a stage_b).
  - by vm_compute.
  - reflexivity.
  - decide_by_evaluation.
Defined.
